(** * The debounced search client of [app.js]

    A shallow embedding of the four components of [src/app.js]:
    [DelayedTask], [DelayedTaskFactory], [GithubService] and
    [SearchController], together with a model of the three things the
    program runs on and that are not part of it: the browser's timers
    ([setTimeout], [clearInterval]), AngularJS's [$q] futures and the
    [$http] transport.

    Conventions.
    - JavaScript numbers that the program counts with (page numbers, timer
      handles) are mathematical integers: [Z] and [positive].  This is exact
      below 2^53.
    - Mutable program state is threaded explicitly: a function of the source
      that reads or writes state is a computation in the monad [M], which
      carries the [World] and may raise a JavaScript exception.
    - The closures the program hands to timers and futures are first-order
      codes ([Job], [Callback]) with an interpreter, so that they can sit in
      the state that they themselves act on.
    - The page is single-threaded: the handler of an event runs to its end,
      then the callbacks that have become due run, in the order in which
      they became due, until none is left ([Step]).  Between two events
      anything may be pending: timers, requests, futures.
    - [$scope.searchTerm] is a string: the states of the model are those in
      which the search field has been written.  The controller itself never
      assigns it, so on the controller as constructed it is [undefined];
      there [conductSearch] and [fetchMoreResults] throw a [TypeError] in
      [getFormattedInput], their first statement, and change nothing.  That
      state is not in the model, and no statement below speaks about it. *)

From Stdlib Require Import ZArith String Ascii List.
From stdpp Require Import base option list strings gmap fin_maps pretty.

Open Scope string_scope.
Open Scope Z_scope.
Open Scope list_scope.

Set Warnings "-register-all".

(** ** JavaScript values *)

(** Data that flows through the program: search records, response bodies,
    error payloads and references to futures.  Objects are association lists
    in property order; the first binding of a name is the one that counts. *)
Inductive value : Type :=
  | VUndefined
  | VNull
  | VBool (b : bool)
  | VNum (n : Z)
  | VStr (s : string)
  | VObj (fields : list (string * value))
  | VArr (items : list value)
  | VPromise (p : positive).

(** The outcome of evaluating JavaScript code: a value, or a thrown one. *)
Inductive result (A : Type) : Type :=
  | Normal (a : A)
  | Throw (e : value).
Arguments Normal {A} a.
Arguments Throw {A} e.

(** [Error(message)] *)
Definition Error (message : string) : value :=
  VObj [("name", VStr "Error"); ("message", VStr message)].

(** The [TypeError] the engine raises for a property read on [undefined] or
    [null].  Its message text differs between engines and is left out. *)
Definition TypeError : value :=
  VObj [("name", VStr "TypeError")].

Fixpoint assoc (name : string) (fields : list (string * value)) : option value :=
  match fields with
  | [] => None
  | (k, v) :: rest => if String.eqb k name then Some v else assoc name rest
  end.

(** [o.name] for a data property [name].  The program only reads [data],
    [repositories] and the six record fields, none of which a built-in
    prototype defines: on anything but a plain object the read gives
    [undefined], and on [undefined] and [null] it throws. *)
Definition get_prop (o : value) (name : string) : result value :=
  match o with
  | VUndefined | VNull => Throw TypeError
  | VObj fields => Normal (default VUndefined (assoc name fields))
  | _ => Normal VUndefined
  end.

(** [n + ''] for an integer [n]: decimal digits with a leading minus sign. *)
Definition number_to_string (n : Z) : string := pretty n.

(** [s.split(sep)] for a one-character separator. *)
Fixpoint split (sep : ascii) (s : string) : list string :=
  match s with
  | EmptyString => [EmptyString]
  | String c rest =>
      if Ascii.eqb c sep then EmptyString :: split sep rest
      else match split sep rest with
           | [] => [String c EmptyString]
           | piece :: pieces => String c piece :: pieces
           end
  end.

(** [pieces.join(sep)] *)
Fixpoint join (sep : string) (pieces : list string) : string :=
  match pieces with
  | [] => EmptyString
  | [piece] => piece
  | piece :: rest => piece +:+ sep +:+ join sep rest
  end.

(** [s] occurs in [t]. *)
Definition mentions (t s : string) : Prop :=
  ∃ before after, t = before +:+ s +:+ after.

(** ** Closures as codes *)

(** The functions that are passed to [DelayedTask]. *)
Inductive Job : Type :=
  | noOpFunction
      (** [function () {}] of [GithubService] *)
  | searchGitHubRepos (term : string) (targetPage : Z)
      (** the function that [searchGitHubRepos(term, targetPage)] returns *)
  | factoryJob (job : Job) (deferred : positive)
      (** the function that [create] wraps around [job] *)
  | otherJob (does : result value).
      (** any other job, given by what a call to it does: return a value
          (possibly a future) or throw *)

(** The functions that are passed to [then], [catch] and [finally]. *)
Inductive Callback : Type :=
  | CreateResultBeans
  | RejectWithData
      (** [function (response) { return $q.reject(response.data); }] *)
  | OnSearchResultsReceived
  | OnErrorOccurred
  | OnFetchMoreFailed
      (** [function (error) { decrementPage(); onErrorOccurred(error); }] *)
  | ResetRequestInitiation.

(** ** Futures *)

Inductive Outcome : Type :=
  | Fulfilled (v : value)
  | Rejected (reason : value).

Inductive PromiseState : Type :=
  | Pending
  | Following
      (** resolved with another future whose outcome it awaits *)
  | Settled (o : Outcome).

Inductive Handler : Type :=
  | Then (cb : Callback)
  | Catch (cb : Callback)
  | Finally (cb : Callback)
  | Adopt.
      (** the target takes over the outcome as it is *)

(** What hangs on a future: a handler and the derived future it feeds. *)
Record Reaction : Type := mkReaction {
  handler : Handler;
  target : positive
}.

Record Promise : Type := mkPromise {
  state : PromiseState;
  reactions : list Reaction
}.

(** ** Program state *)

Record DelayedTask : Type := mkDelayedTask {
  job : Job;
  delay : Z;
  self : positive
    (** the identity of the instance, under which its private [taskID]
        is stored *)
}.

Record StructuredDelayedTask : Type := mkStructuredDelayedTask {
  handle : DelayedTask;
  promise : positive
}.

(** [$scope] and the private variables of [SearchController]. *)
Record Controller : Type := mkController {
  searchTerm : string;
  delayedJob : option StructuredDelayedTask;
  currentPage : Z;
  searchResults : list value;
  canInitiateRequests : bool;
  fetchingMoreResults : bool;
  canLoadMore : value;
  error : value
}.

Record World : Type := mkWorld {
  timers : gmap positive (Job * Z);
    (** the browser's pending timers: handle, callback and delay *)
  next_timer : positive;
  taskID : gmap positive positive;
    (** the [taskID] variable of every [DelayedTask]; no entry while it is
        [undefined] or [null] *)
  next_task : positive;
  promises : gmap positive Promise;
  next_promise : positive;
  queue : list (Reaction * Outcome);
    (** callbacks that are due, in the order they became due *)
  requests : list (string * positive);
    (** the GET requests issued so far, each with the future of its response *)
  ctrl : Controller
}.

Definition set_timers (f : gmap positive (Job * Z) → gmap positive (Job * Z)) (w : World) : World :=
  mkWorld (f (timers w)) (next_timer w) (taskID w) (next_task w) (promises w)
          (next_promise w) (queue w) (requests w) (ctrl w).
Definition set_next_timer (n : positive) (w : World) : World :=
  mkWorld (timers w) n (taskID w) (next_task w) (promises w)
          (next_promise w) (queue w) (requests w) (ctrl w).
Definition set_taskID (f : gmap positive positive → gmap positive positive) (w : World) : World :=
  mkWorld (timers w) (next_timer w) (f (taskID w)) (next_task w) (promises w)
          (next_promise w) (queue w) (requests w) (ctrl w).
Definition set_next_task (n : positive) (w : World) : World :=
  mkWorld (timers w) (next_timer w) (taskID w) n (promises w)
          (next_promise w) (queue w) (requests w) (ctrl w).
Definition set_promises (f : gmap positive Promise → gmap positive Promise) (w : World) : World :=
  mkWorld (timers w) (next_timer w) (taskID w) (next_task w) (f (promises w))
          (next_promise w) (queue w) (requests w) (ctrl w).
Definition set_next_promise (n : positive) (w : World) : World :=
  mkWorld (timers w) (next_timer w) (taskID w) (next_task w) (promises w)
          n (queue w) (requests w) (ctrl w).
Definition set_queue (f : list (Reaction * Outcome) → list (Reaction * Outcome)) (w : World) : World :=
  mkWorld (timers w) (next_timer w) (taskID w) (next_task w) (promises w)
          (next_promise w) (f (queue w)) (requests w) (ctrl w).
Definition set_requests (f : list (string * positive) → list (string * positive)) (w : World) : World :=
  mkWorld (timers w) (next_timer w) (taskID w) (next_task w) (promises w)
          (next_promise w) (queue w) (f (requests w)) (ctrl w).
Definition set_ctrl (f : Controller → Controller) (w : World) : World :=
  mkWorld (timers w) (next_timer w) (taskID w) (next_task w) (promises w)
          (next_promise w) (queue w) (requests w) (f (ctrl w)).

Arguments set_timers _ _ /.
Arguments set_next_timer _ _ /.
Arguments set_taskID _ _ /.
Arguments set_next_task _ _ /.
Arguments set_promises _ _ /.
Arguments set_next_promise _ _ /.
Arguments set_queue _ _ /.
Arguments set_requests _ _ /.
Arguments set_ctrl _ _ /.

(** ** The monad of stateful code that may throw *)

Definition M (A : Type) : Type := World → result A * World.

Definition ret {A} (a : A) : M A := λ w, (Normal a, w).

Definition bind {A B} (m : M A) (k : A → M B) : M B :=
  λ w, match m w with
       | (Normal a, w') => k a w'
       | (Throw e, w') => (Throw e, w')
       end.

Definition throw {A} (e : value) : M A := λ w, (Throw e, w).

(** [try { m } catch (e) { h }] *)
Definition try_catch {A} (m : M A) (h : value → M A) : M A :=
  λ w, match m w with
       | (Normal a, w') => (Normal a, w')
       | (Throw e, w') => h e w'
       end.

Definition lift {A} (r : result A) : M A := λ w, (r, w).
Definition get {A} (f : World → A) : M A := λ w, (Normal (f w), w).
Definition modify (f : World → World) : M unit := λ w, (Normal tt, f w).

Arguments ret {_} _ _ /.
Arguments bind {_ _} _ _ _ /.
Arguments throw {_} _ _ /.
Arguments try_catch {_} _ _ _ /.
Arguments lift {_} _ _ /.
Arguments get {_} _ _ /.
Arguments modify _ _ /.

Declare Scope js_scope.
Delimit Scope js_scope with js.
Notation "'let*' x := m 'in' k" := (bind m (λ x, k))
  (at level 10, x name, m at level 100, k at level 200) : js_scope.
Notation "m ;; k" := (bind m (λ _, k))
  (at level 100, k at level 200, right associativity) : js_scope.
Open Scope js_scope.

(** ** Timers of the browser *)

(** [setTimeout(callback, delay)]: handles are positive and never reused. *)
Definition setTimeout (callback : Job) (ms : Z) : M positive :=
  λ w, let id := next_timer w in
       (Normal id, set_next_timer (Pos.succ id) (set_timers (insert id (callback, ms)) w)).

(** [clearInterval(id)]: timeouts and intervals share one pool of handles,
    so this takes a pending timeout off the list; a handle that is not
    pending is ignored. *)
Definition clearInterval (id : positive) : M unit :=
  modify (set_timers (delete id)).

(** ** DelayedTask *)

(** [new DelayedTask(job, delay)]: a fresh instance, its [taskID] undefined. *)
Definition new_DelayedTask (j : Job) (ms : Z) : M DelayedTask :=
  λ w, let me := next_task w in
       (Normal (mkDelayedTask j ms me),
        set_next_task (Pos.succ me) (set_taskID (delete me) w)).

Definition schedule (t : DelayedTask) : M unit :=
  let* id := get (λ w, taskID w !! self t) in
  match id with
  | Some _ => throw (Error "TASK ALREADY SCHEDULED")
  | None =>
      let* id := setTimeout (job t) (delay t) in
      modify (set_taskID (insert (self t) id))
  end.

Definition cancel (t : DelayedTask) : M unit :=
  let* id := get (λ w, taskID w !! self t) in
  match id with
  | Some id =>
      clearInterval id ;;
      modify (set_taskID (delete (self t)))
  | None => ret tt
  end.

Arguments schedule : simpl never.
Arguments cancel : simpl never.

(** ** Futures: the part of [$q] that the program uses *)

(** [$q.defer()] *)
Definition q_defer : M positive :=
  λ w, let p := next_promise w in
       (Normal p,
        set_next_promise (Pos.succ p) (set_promises (insert p (mkPromise Pending [])) w)).

Definition enqueue (due : list (Reaction * Outcome)) : M unit :=
  modify (set_queue (λ q, q ++ due)).

(** A future that is not settled yet takes outcome [o]; what hangs on it
    becomes due.  Callbacks never run inside the call that settles. *)
Definition settle (p : positive) (o : Outcome) : M unit :=
  let* c := get (λ w, promises w !! p) in
  match c with
  | None | Some (mkPromise (Settled _) _) => ret tt
  | Some (mkPromise _ rs) =>
      modify (set_promises (insert p (mkPromise (Settled o) []))) ;;
      enqueue (map (λ r, (r, o)) rs)
  end.

(** Hang [r] on [p]; on a settled future it is due at once. *)
Definition subscribe (p : positive) (r : Reaction) : M unit :=
  let* c := get (λ w, promises w !! p) in
  match c with
  | None => ret tt
  | Some (mkPromise (Settled o) _) => enqueue [(r, o)]
  | Some (mkPromise st rs) =>
      modify (set_promises (insert p (mkPromise st (rs ++ [r]))))
  end.

(** Resolution of [p] with [v]: a plain value fulfils, a future is followed. *)
Definition resolve_with (p : positive) (v : value) : M unit :=
  match v with
  | VPromise q =>
      if decide (q = p) then settle p (Rejected TypeError)
      else
        let* c := get (λ w, promises w !! p) in
        match c with
        | Some (mkPromise Pending rs) =>
            modify (set_promises (insert p (mkPromise Following rs))) ;;
            subscribe q (mkReaction Adopt p)
        | _ => ret tt
        end
  | _ => settle p (Fulfilled v)
  end.

(** [deferred.resolve(v)]: ignored once the future is resolved. *)
Definition deferred_resolve (d : positive) (v : value) : M unit :=
  let* c := get (λ w, promises w !! d) in
  match c with
  | Some (mkPromise Pending _) => resolve_with d v
  | _ => ret tt
  end.

(** [deferred.reject(reason)] *)
Definition deferred_reject (d : positive) (reason : value) : M unit :=
  let* c := get (λ w, promises w !! d) in
  match c with
  | Some (mkPromise Pending _) => settle d (Rejected reason)
  | _ => ret tt
  end.

Arguments settle : simpl never.
Arguments subscribe : simpl never.
Arguments resolve_with : simpl never.
Arguments deferred_resolve : simpl never.
Arguments deferred_reject : simpl never.

(** [$q.when(v)] *)
Definition q_when (v : value) : M positive :=
  let* d := q_defer in
  deferred_resolve d v ;;
  ret d.

(** [$q.reject(reason)] *)
Definition q_reject (reason : value) : M positive :=
  let* d := q_defer in
  deferred_reject d reason ;;
  ret d.

Definition derive (p : positive) (h : Handler) : M positive :=
  let* q := q_defer in
  subscribe p (mkReaction h q) ;;
  ret q.

(** [p.then(cb)], [p.catch(cb)], [p.finally(cb)] *)
Definition promise_then (p : positive) (cb : Callback) : M positive := derive p (Then cb).
Definition promise_catch (p : positive) (cb : Callback) : M positive := derive p (Catch cb).
Definition promise_finally (p : positive) (cb : Callback) : M positive := derive p (Finally cb).

(** ** Transport *)

(** [$http.get(url)]: the request is on its way; its future settles when the
    response arrives. *)
Definition http_get (url : string) : M positive :=
  let* h := q_defer in
  modify (set_requests (λ rs, rs ++ [(url, h)])) ;;
  ret h.

(** ** Configuration *)

Definition PAGE_LIMIT : Z := 10.
Definition START_PAGE : Z := 1.
Definition TIME_DELAY : Z := 2000.

(** ** DelayedTaskFactory *)

Definition create (j : Job) (ms : Z) : M StructuredDelayedTask :=
  let* deferred := q_defer in
  let* task := new_DelayedTask (factoryJob j deferred) ms in
  ret (mkStructuredDelayedTask task deferred).

(** ** GithubService *)

Definition TARGET_URL_PRFIX : string := "https://api.github.com/legacy/repos/search/".

(** The one instance the service builds when it is constructed; every
    out-of-range answer shares it. *)
Definition dummyDelayedTask : DelayedTask := mkDelayedTask noOpFunction 0 1%positive.

Definition createGithubSearchURL (term : string) (targetPage : Z) : string :=
  TARGET_URL_PRFIX +:+ term +:+ "?start_page=" +:+ number_to_string targetPage.

Definition result_bind {A B} (r : result A) (k : A → result B) : result B :=
  match r with
  | Normal a => k a
  | Throw e => Throw e
  end.

(** The object literal in the loop body of [createResultBeans]. *)
Definition bean (raw : value) : result value :=
  result_bind (get_prop raw "owner") (λ owner,
  result_bind (get_prop raw "name") (λ name,
  result_bind (get_prop raw "language") (λ language,
  result_bind (get_prop raw "followers") (λ followers,
  result_bind (get_prop raw "url") (λ url,
  result_bind (get_prop raw "description") (λ description,
  Normal (VObj [("owner", owner); ("name", name); ("language", language);
                ("followers", followers); ("url", url);
                ("description", description)]))))))).

(** The [for] loop of [createResultBeans], from index [i] on: [rawData] is
    what is left of the array, [results] what has been pushed. *)
Fixpoint createResultBeans_loop (rawData results : list value) : result (list value) :=
  match rawData with
  | [] => Normal results
  | raw :: rest =>
      result_bind (bean raw) (λ b, createResultBeans_loop rest (results ++ [b]))
  end.

(** [createResultBeans(response)].  [None]: [repositories] is neither an
    array nor missing; the loop then runs over an array-like whose bound
    JavaScript coerces to a number, which is not modelled. *)
Definition createResultBeans (response : value) : option (result value) :=
  match get_prop response "data" with
  | Throw e => Some (Throw e)
  | Normal data =>
      match get_prop data "repositories" with
      | Throw e => Some (Throw e)
      | Normal (VArr rawData) =>
          Some (result_bind (createResultBeans_loop rawData []) (λ results,
                Normal (VArr results)))
      | Normal (VUndefined | VNull) => Some (Throw TypeError)
      | Normal _ => None
      end
  end.

(** [function (response) { return $q.reject(response.data); }] *)
Definition rejectWithData (response : value) : M value :=
  let* data := lift (get_prop response "data") in
  let* p := q_reject data in
  ret (VPromise p).

Definition searchByKeywordWithPaging (keyword : string) (pageNumber : Z) : M StructuredDelayedTask :=
  if (pageNumber >? PAGE_LIMIT) || (pageNumber <? START_PAGE) then
    let* rejected :=
      q_reject (VObj [("message",
                       VStr ("INVALID PAGING VALUE " +:+ number_to_string pageNumber
                             +:+ " FOR KEYWORD " +:+ keyword))]) in
    ret (mkStructuredDelayedTask dummyDelayedTask rejected)
  else
    let* delayedJob := create (searchGitHubRepos keyword pageNumber) TIME_DELAY in
    schedule (handle delayedJob) ;;
    ret delayedJob.

Arguments searchByKeywordWithPaging : simpl never.

(** A call of a job. *)
Fixpoint run_job (j : Job) : M value :=
  match j with
  | noOpFunction => ret VUndefined
  | searchGitHubRepos term targetPage =>
      let* h := http_get (createGithubSearchURL term targetPage) in
      let* h1 := promise_then h CreateResultBeans in
      let* h2 := promise_catch h1 RejectWithData in
      ret (VPromise h2)
  | factoryJob j' deferred =>
      try_catch
        (let* result := run_job j' in
         let* p := q_when result in
         deferred_resolve deferred (VPromise p) ;;
         ret VUndefined)
        (λ errorResponse,
         let* data := lift (get_prop errorResponse "data") in
         deferred_reject deferred data ;;
         ret VUndefined)
  | otherJob does => lift does
  end.

(** ** SearchController *)

Definition set_searchTerm (s : string) (c : Controller) : Controller :=
  mkController s (delayedJob c) (currentPage c) (searchResults c)
               (canInitiateRequests c) (fetchingMoreResults c) (canLoadMore c) (error c).
Definition set_delayedJob (dj : option StructuredDelayedTask) (c : Controller) : Controller :=
  mkController (searchTerm c) dj (currentPage c) (searchResults c)
               (canInitiateRequests c) (fetchingMoreResults c) (canLoadMore c) (error c).
Definition set_currentPage (n : Z) (c : Controller) : Controller :=
  mkController (searchTerm c) (delayedJob c) n (searchResults c)
               (canInitiateRequests c) (fetchingMoreResults c) (canLoadMore c) (error c).
Definition set_searchResults (rs : list value) (c : Controller) : Controller :=
  mkController (searchTerm c) (delayedJob c) (currentPage c) rs
               (canInitiateRequests c) (fetchingMoreResults c) (canLoadMore c) (error c).
Definition set_canInitiateRequests (b : bool) (c : Controller) : Controller :=
  mkController (searchTerm c) (delayedJob c) (currentPage c) (searchResults c)
               b (fetchingMoreResults c) (canLoadMore c) (error c).
Definition set_fetchingMoreResults (b : bool) (c : Controller) : Controller :=
  mkController (searchTerm c) (delayedJob c) (currentPage c) (searchResults c)
               (canInitiateRequests c) b (canLoadMore c) (error c).
Definition set_canLoadMore (v : value) (c : Controller) : Controller :=
  mkController (searchTerm c) (delayedJob c) (currentPage c) (searchResults c)
               (canInitiateRequests c) (fetchingMoreResults c) v (error c).
Definition set_error (v : value) (c : Controller) : Controller :=
  mkController (searchTerm c) (delayedJob c) (currentPage c) (searchResults c)
               (canInitiateRequests c) (fetchingMoreResults c) (canLoadMore c) v.

Arguments set_searchTerm _ _ /.
Arguments set_delayedJob _ _ /.
Arguments set_currentPage _ _ /.
Arguments set_searchResults _ _ /.
Arguments set_canInitiateRequests _ _ /.
Arguments set_fetchingMoreResults _ _ /.
Arguments set_canLoadMore _ _ /.
Arguments set_error _ _ /.

(** An assignment to a variable of the controller. *)
Definition assign (f : Controller → Controller) : M unit := modify (set_ctrl f).

Definition formatted (term : string) : string := join "+" (split " " term).

(** On a field that has been written; see the conventions for the field
    that has not. *)
Definition getFormattedInput : M string :=
  get (λ w, formatted (searchTerm (ctrl w))).

Definition cancelJobIfStillActive : M unit :=
  let* dj := get (λ w, delayedJob (ctrl w)) in
  match dj with
  | Some dj =>
      cancel (handle dj) ;;
      assign (set_delayedJob None)
  | None => ret tt
  end.

Arguments cancelJobIfStillActive : simpl never.

Definition resetErrorState : M unit := assign (set_error VNull).

Definition resetPaging : M unit :=
  assign (set_currentPage START_PAGE) ;;
  assign (set_canLoadMore (VBool true)).

Definition incrementPage : M unit :=
  assign (λ c, set_currentPage (currentPage c + 1) c).

Definition decrementPage : M unit :=
  assign (λ c, set_currentPage (currentPage c - 1) c).

Definition resetRequestInitiation : M unit :=
  assign (set_canInitiateRequests true) ;;
  assign (set_fetchingMoreResults false).

Definition disableLoadMore : M unit := assign (set_canLoadMore (VBool false)).

Definition onErrorOccurred (err : value) : M unit := assign (set_error err).

(** [beans] is an array, as the source declares it. *)
Definition onSearchResultsReceived (beans : list value) : M unit :=
  if (length beans =? 0)%nat then disableLoadMore
  else assign (λ c, set_searchResults (searchResults c ++ beans) c).

(** [function (error) { decrementPage(); onErrorOccurred(error); }] *)
Definition onFetchMoreFailed (err : value) : M unit :=
  decrementPage ;;
  onErrorOccurred err.

Definition conductSearch : M unit :=
  let* term := getFormattedInput in
  cancelJobIfStillActive ;;
  resetErrorState ;;
  resetPaging ;;
  assign (set_searchResults []) ;;
  if decide (term ≠ "") then
    let* page := get (λ w, currentPage (ctrl w)) in
    let* dj := searchByKeywordWithPaging term page in
    assign (set_delayedJob (Some dj)) ;;
    assign (set_canInitiateRequests false) ;;
    assign (set_fetchingMoreResults false) ;;
    let* p1 := promise_then (promise dj) OnSearchResultsReceived in
    let* p2 := promise_catch p1 OnErrorOccurred in
    let* p3 := promise_finally p2 ResetRequestInitiation in
    ret tt
  else ret tt.

Definition fetchMoreResults : M unit :=
  let* term := getFormattedInput in
  cancelJobIfStillActive ;;
  resetErrorState ;;
  incrementPage ;;
  let* page := get (λ w, currentPage (ctrl w)) in
  let* dj := searchByKeywordWithPaging term page in
  assign (set_delayedJob (Some dj)) ;;
  assign (set_canInitiateRequests false) ;;
  assign (set_fetchingMoreResults true) ;;
  let* p1 := promise_then (promise dj) OnSearchResultsReceived in
  let* p2 := promise_catch p1 OnFetchMoreFailed in
  let* p3 := promise_finally p2 ResetRequestInitiation in
  ret tt.

(** [x === true] *)
Definition is_true (x : value) : bool :=
  match x with
  | VBool true => true
  | _ => false
  end.

Definition isAllowedToLoadMore (w : World) : bool :=
  is_true (canLoadMore (ctrl w)) &&
  bool_decide (formatted (searchTerm (ctrl w)) ≠ "") &&
  (currentPage (ctrl w) <=? PAGE_LIMIT) &&
  canInitiateRequests (ctrl w) &&
  (0 <? length (searchResults (ctrl w)))%nat.

(** ** Running callbacks *)

(** A call [cb(arg)].  [None]: the call is outside what is modelled
    ([createResultBeans] on an array-like, [onSearchResultsReceived] on
    something that is not an array). *)
Definition run_callback (cb : Callback) (arg : value) (w : World) : option (result value * World) :=
  match cb with
  | CreateResultBeans =>
      r ← createResultBeans arg; Some (r, w)
  | RejectWithData => Some (rejectWithData arg w)
  | OnSearchResultsReceived =>
      match arg with
      | VArr beans => Some ((onSearchResultsReceived beans ;; ret VUndefined) w)
      | _ => None
      end
  | OnErrorOccurred => Some ((onErrorOccurred arg ;; ret VUndefined) w)
  | OnFetchMoreFailed => Some ((onFetchMoreFailed arg ;; ret VUndefined) w)
  | ResetRequestInitiation => Some ((resetRequestInitiation ;; ret VUndefined) w)
  end.

(** What a callback's result does to the derived future. *)
Definition conclude (q : positive) (r : result value) : M unit :=
  match r with
  | Normal x => resolve_with q x
  | Throw e => settle q (Rejected e)
  end.

(** The first callback that is due runs.  [None]: nothing is due, or the
    call is outside what is modelled (see [run_callback]; also a [finally]
    callback that returns a future). *)
Definition tick (w : World) : option World :=
  match queue w with
  | [] => None
  | (r, o) :: due =>
      let w := set_queue (λ _, due) w in
      match handler r, o with
      | Then cb, Fulfilled v | Catch cb, Rejected v =>
          '(res, w) ← run_callback cb v w;
          Some (snd (conclude (target r) res w))
      | Then _, Rejected _ | Catch _, Fulfilled _ | Adopt, _ =>
          Some (snd (settle (target r) o w))
      | Finally cb, _ =>
          '(res, w) ← run_callback cb VUndefined w;
          match res with
          | Normal (VPromise _) => None
          | Normal _ => Some (snd (settle (target r) o w))
          | Throw e => Some (snd (settle (target r) (Rejected e) w))
          end
      end
  end.

(** Callbacks run until none is due. *)
Fixpoint digest (fuel : nat) (w : World) : option World :=
  match queue w with
  | [] => Some w
  | _ :: _ =>
      match fuel with
      | O => None
      | S fuel => w ← tick w; digest fuel w
      end
  end.

Arguments tick : simpl never.
Arguments digest : simpl never.

Definition Digests (w w' : World) : Prop := ∃ fuel, digest fuel w = Some w'.

(** ** What happens to the page *)

Inductive Event : Type :=
  | UserTypes (term : string)
  | UserSearches
  | UserLoadsMore
  | TimerFires (id : positive)
  | ResponseArrives (h : positive) (o : Outcome).

Definition awaited (h : positive) (w : World) : bool :=
  existsb (λ r, bool_decide (r.2 = h)) (requests w) &&
  match promises w !! h with
  | Some (mkPromise Pending _) => true
  | _ => false
  end.

(** The handler of an event, before the callbacks it makes due.  An
    exception that escapes a handler is reported by the browser and the
    page goes on.  [None]: the event cannot happen in [w]. *)
Definition act (e : Event) (w : World) : option World :=
  match e with
  | UserTypes term => Some (set_ctrl (set_searchTerm term) w)
  | UserSearches => Some (snd (conductSearch w))
  | UserLoadsMore => Some (snd (fetchMoreResults w))
  | TimerFires id =>
      '(callback, _) ← timers w !! id;
      Some (snd (run_job callback (set_timers (delete id) w)))
  | ResponseArrives h o =>
      if awaited h w then Some (snd (settle h o w)) else None
  end.

Definition Step (w : World) (e : Event) (w' : World) : Prop :=
  ∃ w1, act e w = Some w1 ∧ Digests w1 w'.

Inductive Run : World → list Event → World → Prop :=
  | Run_nil w : Run w [] w
  | Run_cons w e w1 es w2 : Step w e w1 → Run w1 es w2 → Run w (e :: es) w2.

(** The same, as a function. *)
Fixpoint run (fuel : nat) (es : list Event) (w : World) : option World :=
  match es with
  | [] => Some w
  | e :: es => w ← act e w; w ← digest fuel w; run fuel es w
  end.

(** The page when it has loaded and the search field has been written
    and is empty: the state of the controller as constructed, with the
    empty string for [searchTerm]. *)
Definition init : World :=
  mkWorld ∅ 1%positive ∅ 2%positive ∅ 1%positive [] []
          (mkController "" None START_PAGE [] true false VUndefined VUndefined).

(** ** Vocabulary of the statements *)

(** The six fields of a search record. *)
Definition record_fields : list string :=
  ["owner"; "name"; "language"; "followers"; "url"; "description"].

(** The projection of a raw record, given by its properties, onto the six
    fields; a field that the raw record lacks is [undefined]. *)
Definition SearchResult (raw : list (string * value)) : value :=
  VObj (map (λ k, (k, default VUndefined (assoc k raw))) record_fields).

(** A response whose body carries [rawData] as its [repositories]. *)
Definition carries (response : value) (rawData : list value) : Prop :=
  ∃ data, get_prop response "data" = Normal data ∧
          get_prop data "repositories" = Normal (VArr rawData).

(** What a failure [r] is turned into before it reaches the controller:
    [r.data], or the [TypeError] of reading it. *)
Definition payload (r : value) : value :=
  match get_prop r "data" with
  | Normal data => data
  | Throw e => e
  end.

(** The outcome [o] of a request makes the search job fail with [r]: the
    request fails with [r], or [createResultBeans] throws [r] on its
    response. *)
Definition fails_with (o : Outcome) (r : value) : Prop :=
  o = Rejected r ∨
  ∃ response, o = Fulfilled response ∧ createResultBeans response = Some (Throw r).

Definition rejected_with (w : World) (p : positive) (reason : value) : Prop :=
  ∃ rs, promises w !! p = Some (mkPromise (Settled (Rejected reason)) rs).

(** The message of the rejection for a page outside the window. *)
Definition paging_message (keyword : string) (pageNumber : Z) : string :=
  "INVALID PAGING VALUE " +:+ number_to_string pageNumber +:+ " FOR KEYWORD " +:+ keyword.

(** [m] writes no [taskID]. *)
Definition keeps_tasks {A} (m : M A) : Prop :=
  ∀ w, taskID (m w).2 = taskID w.

(** A successful response with [rawData] as its [repositories]. *)
Definition ok_response (rawData : list value) : value :=
  VObj [("data", VObj [("repositories", VArr rawData)]); ("status", VNum 200)].

(** A failed response with [data] as its payload. *)
Definition error_response (status : Z) (data : value) : value :=
  VObj [("data", data); ("status", VNum status)].

(** A record as the API sends it, cut down to eight of its fields. *)
Definition gecko : list (string * value) :=
  [("description", VStr "A Ruby interface to the TradeGecko API.");
   ("followers", VNum 1);
   ("forks", VNum 2);
   ("language", VStr "Ruby");
   ("name", VStr "gecko");
   ("owner", VStr "tradegecko");
   ("url", VStr "https://github.com/tradegecko/gecko");
   ("watchers", VNum 1)].

(** The page after a search for "gecko" has brought one record. *)
Definition first_page_shown : World :=
  default init
    (run 8 [UserTypes "gecko"; UserSearches; TimerFires 1;
            ResponseArrives 5 (Fulfilled (ok_response [VObj gecko]))] init).

(** The same page with the last page of the window shown. *)
Definition last_page_shown : World :=
  set_ctrl (set_currentPage PAGE_LIMIT) first_page_shown.

(** ** Vocabulary of the further statements *)

(** What [split(' ').join('+')] does to one character. *)
Definition plus_for_space (c : ascii) : ascii :=
  if Ascii.eqb c " " then "+"%char else c.

Fixpoint map_string (f : ascii → ascii) (s : string) : string :=
  match s with
  | EmptyString => EmptyString
  | String c s => String (f c) (map_string f s)
  end.

(** [undefined] and [null], on which a property read throws. *)
Definition nullish (v : value) : bool :=
  match v with
  | VUndefined | VNull => true
  | _ => false
  end.

(** The properties of a value that is not [undefined] or [null], as far as
    the six fields go: those of an object, none for anything else. *)
Definition fields_of (v : value) : list (string * value) :=
  match v with
  | VObj fields => fields
  | _ => []
  end.

Definition plain (v : value) : Prop := ∀ p, v ≠ VPromise p.

Definition fulfilled_with (w : World) (p : positive) (v : value) : Prop :=
  ∃ rs, promises w !! p = Some (mkPromise (Settled (Fulfilled v)) rs).

(** [m] leaves what [view] shows of the world as it is. *)
Definition preserves {X A} (view : World → X) (m : M A) : Prop :=
  ∀ w, view (m w).2 = view w.

(** [view] shows nothing of the futures and of the callbacks that are due. *)
Definition ignores_futures {X} (view : World → X) : Prop :=
  (∀ g w, view (set_promises g w) = view w) ∧
  (∀ n w, view (set_next_promise n w) = view w) ∧
  (∀ g w, view (set_queue g w) = view w).

(** [view] shows nothing of the controller but the job it holds. *)
Definition ignores_scope {X} (view : World → X) : Prop :=
  ∀ g w, (∀ c, delayedJob (g c) = delayedJob c) → view (set_ctrl g w) = view w.

(** Timers, tasks and the job that the controller holds. *)
Definition scheduling (w : World) :
    gmap positive (Job * Z) * positive * gmap positive positive * positive
    * option StructuredDelayedTask :=
  (timers w, next_timer w, taskID w, next_task w, delayedJob (ctrl w)).

(** Every pending timer is the one of the job that the controller holds. *)
Definition owned (w : World) : Prop :=
  ∀ id entry,
    timers w !! id = Some entry →
    ∃ dj, delayedJob (ctrl w) = Some dj ∧ taskID w !! self (handle dj) = Some id.

(** Every pending timer runs a search job for a page inside the window,
    after the debounce delay. *)
Definition timers_in_window (w : World) : Prop :=
  ∀ id callback ms,
    timers w !! id = Some (callback, ms) →
    ms = TIME_DELAY ∧
    ∃ term page d,
      callback = factoryJob (searchGitHubRepos term page) d ∧
      START_PAGE ≤ page ≤ PAGE_LIMIT.

(** Every request issued so far is for a page inside the window. *)
Definition requests_in_window (w : World) : Prop :=
  ∀ url h,
    (url, h) ∈ requests w →
    ∃ term page,
      url = createGithubSearchURL term page ∧ START_PAGE ≤ page ≤ PAGE_LIMIT.

(** * Properties *)

(** ** Strings *)

Lemma split_not_nil sep s : split sep s ≠ [].
Proof.
  destruct s as [|c s]; simpl; [discriminate|].
  destruct (Ascii.eqb c sep); [discriminate|].
  destruct (split sep s); discriminate.
Qed.

Lemma join_cons_not_empty sep c piece pieces :
  join sep (String c piece :: pieces) ≠ "".
Proof. destruct pieces; simpl; discriminate. Qed.

(** Only the empty term formats to the empty string. *)
Lemma formatted_empty_iff term : formatted term = "" ↔ term = "".
Proof.
  unfold formatted. split; [|intros ->; reflexivity].
  destruct term as [|c term]; [reflexivity|]. simpl.
  destruct (Ascii.eqb c " ").
  - pose proof (split_not_nil " " term) as Hne.
    destruct (split " " term); [contradiction|]. simpl. discriminate.
  - destruct (split " " term) as [|piece pieces].
    + simpl. discriminate.
    + intros H. exfalso. eapply join_cons_not_empty, H.
Qed.

Lemma mentions_middle a s b : mentions (a +:+ s +:+ b) s.
Proof. exists a, b. reflexivity. Qed.

Lemma append_empty_r (s : string) : s +:+ "" = s.
Proof.
  induction s as [|c s IH]; [reflexivity|].
  change (String c (s +:+ "") = String c s). by rewrite IH.
Qed.

Lemma append_assoc (a b c : string) : (a +:+ b) +:+ c = a +:+ (b +:+ c).
Proof.
  induction a as [|x a IH]; [reflexivity|].
  change (String x ((a +:+ b) +:+ c) = String x (a +:+ (b +:+ c))). by rewrite IH.
Qed.

Lemma mentions_end a s : mentions (a +:+ s) s.
Proof. exists a, "". by rewrite append_empty_r. Qed.

(** ** The normalisation of a response *)

Lemma bean_SearchResult raw : bean (VObj raw) = Normal (SearchResult raw).
Proof. reflexivity. Qed.

Lemma createResultBeans_loop_objects raws results :
  createResultBeans_loop (map VObj raws) results
  = Normal (results ++ map SearchResult raws).
Proof.
  revert results. induction raws as [|raw raws IH]; intros results; simpl.
  - by rewrite app_nil_r.
  - rewrite IH. by rewrite <- app_assoc.
Qed.

Lemma createResultBeans_objects response raws :
  carries response (map VObj raws) →
  createResultBeans response = Some (Normal (VArr (map SearchResult raws))).
Proof.
  intros (data & Hdata & Hrepos). unfold createResultBeans.
  rewrite Hdata, Hrepos, createResultBeans_loop_objects. reflexivity.
Qed.

Lemma assoc_tabulate (f : string → value) (ks : list string) (k : string) :
  assoc k (map (λ k, (k, f k)) ks) = if decide (k ∈ ks) then Some (f k) else None.
Proof.
  induction ks as [|k' ks IH]; cbn [map assoc].
  - by rewrite decide_False by apply not_elem_of_nil.
  - destruct (String.eqb_spec k' k) as [->|Hne].
    + by rewrite decide_True by apply list_elem_of_here.
    + rewrite IH. destruct (decide (k ∈ ks)) as [Hin|Hin].
      * by rewrite decide_True by by apply list_elem_of_further.
      * rewrite decide_False; [done|].
        rewrite elem_of_cons. intros [->|?]; done.
Qed.

Lemma SearchResult_field raw k :
  k ∈ record_fields →
  get_prop (SearchResult raw) k = get_prop (VObj raw) k.
Proof.
  intros Hin. unfold SearchResult, get_prop.
  by rewrite assoc_tabulate, decide_True.
Qed.

Lemma SearchResult_other raw k :
  k ∉ record_fields →
  get_prop (SearchResult raw) k = Normal VUndefined.
Proof.
  intros Hin. unfold SearchResult, get_prop.
  by rewrite assoc_tabulate, decide_False.
Qed.

(** ** The controller's handlers *)

(** C9.  [isAllowedToLoadMore] reads the state and changes nothing (the one
    function it calls, [getFormattedInput], returns the formatted term and
    the state as it was), and it answers [true] exactly when [canLoadMore]
    is [true], the formatted term is not empty, [currentPage] is at most
    [PAGE_LIMIT], [canInitiateRequests] is [true] and [searchResults] has an
    element. *)
Theorem isAllowedToLoadMore_spec (w : World) :
  getFormattedInput w = (Normal (formatted (searchTerm (ctrl w))), w) ∧
  (isAllowedToLoadMore w = true ↔
     canLoadMore (ctrl w) = VBool true ∧
     formatted (searchTerm (ctrl w)) ≠ "" ∧
     currentPage (ctrl w) ≤ PAGE_LIMIT ∧
     canInitiateRequests (ctrl w) = true ∧
     searchResults (ctrl w) ≠ []).
Proof.
  split; [reflexivity|]. unfold isAllowedToLoadMore.
  rewrite !andb_true_iff, bool_decide_eq_true, Z.leb_le, Nat.ltb_lt.
  assert (is_true (canLoadMore (ctrl w)) = true ↔ canLoadMore (ctrl w) = VBool true) as ->.
  { destruct (canLoadMore (ctrl w)) as [| |[]| | | | |]; simpl; split; congruence. }
  assert ((0 < length (searchResults (ctrl w)))%nat ↔ searchResults (ctrl w) ≠ []) as ->.
  { destruct (searchResults (ctrl w)); simpl; split; (lia || congruence). }
  tauto.
Qed.

(** C6.  When the batch that the success handler receives has no records,
    the handler sets [canLoadMore] to [false] and changes nothing else; in
    particular [searchResults] is as before.  A response that carries an
    empty [repositories] array is normalised to such a batch. *)
Theorem onSearchResultsReceived_empty (response : value) (beans : list value) (w : World) :
  length beans = 0%nat →
  (carries response [] → createResultBeans response = Some (Normal (VArr []))) ∧
  ∃ w', onSearchResultsReceived beans w = (Normal tt, w') ∧
        canLoadMore (ctrl w') = VBool false ∧
        searchResults (ctrl w') = searchResults (ctrl w) ∧
        w' = set_ctrl (set_canLoadMore (VBool false)) w.
Proof.
  intros Hlen. split.
  - intros H. apply (createResultBeans_objects response []), H.
  - unfold onSearchResultsReceived. rewrite Hlen. simpl.
    eexists. repeat split.
Qed.

Lemma onSearchResultsReceived_empty_witness :
  ∃ w', onSearchResultsReceived [] init = (Normal tt, w') ∧
        canLoadMore (ctrl w') = VBool false ∧
        searchResults (ctrl w') = searchResults (ctrl init).
Proof.
  destruct (onSearchResultsReceived_empty VUndefined [] init eq_refl)
    as (_ & w' & H1 & H2 & H3 & _).
  exists w'. auto.
Defined.

Lemma onSearchResultsReceived_cons bean beans w :
  onSearchResultsReceived (bean :: beans) w
  = (Normal tt, set_ctrl (λ c, set_searchResults (searchResults c ++ bean :: beans) c) w).
Proof. reflexivity. Qed.

(** C7.  A response whose [repositories] array holds N > 0 records is
    normalised to the N projections of these records, in the order of the
    array; a projection has the six fields with the values of the raw record
    and no other field.  The success handler appends this batch to
    [searchResults] and leaves [canLoadMore] as it is, so that it remains
    [true]. *)
Theorem onSearchResultsReceived_appends (response : value) (raws : list (list (string * value))) (w : World) :
  raws ≠ [] →
  carries response (map VObj raws) →
  let beans := map SearchResult raws in
  createResultBeans response = Some (Normal (VArr beans)) ∧
  length beans = length raws ∧
  (∀ i raw, raws !! i = Some raw →
     beans !! i = Some (SearchResult raw) ∧
     (∀ k, k ∈ record_fields → get_prop (SearchResult raw) k = get_prop (VObj raw) k) ∧
     (∀ k, k ∉ record_fields → get_prop (SearchResult raw) k = Normal VUndefined)) ∧
  ∃ w', onSearchResultsReceived beans w = (Normal tt, w') ∧
        searchResults (ctrl w') = searchResults (ctrl w) ++ beans ∧
        canLoadMore (ctrl w') = canLoadMore (ctrl w).
Proof.
  intros Hne Hcarries beans. split; [|split; [|split]].
  - by apply createResultBeans_objects.
  - apply length_map.
  - intros i raw Hi. split; [|split].
    + subst beans. by rewrite list_lookup_fmap, Hi.
    + intros k. apply SearchResult_field.
    + intros k. apply SearchResult_other.
  - subst beans. destruct raws as [|raw raws]; [done|].
    cbn [map]. rewrite onSearchResultsReceived_cons. eexists. split; [reflexivity|].
    split; reflexivity.
Qed.

Lemma onSearchResultsReceived_appends_witness :
  [gecko] ≠ [] ∧
  carries (ok_response [VObj gecko]) (map VObj [gecko]) ∧
  ∃ w', onSearchResultsReceived [SearchResult gecko] init = (Normal tt, w') ∧
        searchResults (ctrl w') = [SearchResult gecko] ∧
        canLoadMore (ctrl w') = canLoadMore (ctrl init).
Proof.
  assert ([gecko] ≠ []) as Hne by discriminate.
  assert (carries (ok_response [VObj gecko]) (map VObj [gecko])) as Hcarries.
  { eexists. split; reflexivity. }
  split; [exact Hne|]. split; [exact Hcarries|].
  destruct (onSearchResultsReceived_appends _ _ init Hne Hcarries)
    as (_ & _ & _ & w' & Hcall & Hresults & Hmore).
  exists w'. split; [exact Hcall|]. split; [exact Hresults|exact Hmore].
Defined.

(** C10.  On a batch that is not empty the success handler changes
    [searchResults] and nothing else: [currentPage], [canLoadMore], [error]
    and the job held in [delayedJob] are as before, and so is everything
    outside the controller. *)
Theorem onSearchResultsReceived_frame (beans : list value) (w : World) :
  beans ≠ [] →
  ∃ w', onSearchResultsReceived beans w = (Normal tt, w') ∧
        currentPage (ctrl w') = currentPage (ctrl w) ∧
        canLoadMore (ctrl w') = canLoadMore (ctrl w) ∧
        error (ctrl w') = error (ctrl w) ∧
        delayedJob (ctrl w') = delayedJob (ctrl w) ∧
        w' = set_ctrl (set_searchResults (searchResults (ctrl w) ++ beans)) w.
Proof.
  intros Hne. destruct beans as [|bean beans]; [done|].
  rewrite onSearchResultsReceived_cons. eexists. split; [reflexivity|].
  repeat split.
Qed.

Lemma onSearchResultsReceived_frame_witness :
  [SearchResult gecko] ≠ [] ∧
  ∃ w', onSearchResultsReceived [SearchResult gecko] init = (Normal tt, w') ∧
        currentPage (ctrl w') = currentPage (ctrl init) ∧
        canLoadMore (ctrl w') = canLoadMore (ctrl init) ∧
        error (ctrl w') = error (ctrl init) ∧
        delayedJob (ctrl w') = delayedJob (ctrl init).
Proof.
  assert ([SearchResult gecko] ≠ []) as Hne by discriminate.
  split; [exact Hne|].
  destruct (onSearchResultsReceived_frame _ init Hne)
    as (w' & Hcall & Hpage & Hmore & Herror & Hjob & _).
  exists w'. auto.
Defined.

(** ** DelayedTask *)

Lemma schedule_armed t w id :
  taskID w !! self t = Some id →
  schedule t w = (Throw (Error "TASK ALREADY SCHEDULED"), w).
Proof. intros H. unfold schedule, bind, get. by rewrite H. Qed.

Lemma schedule_idle t w :
  taskID w !! self t = None →
  schedule t w
  = (Normal tt,
     set_taskID (insert (self t) (next_timer w))
       (set_next_timer (Pos.succ (next_timer w))
          (set_timers (insert (next_timer w) (job t, delay t)) w))).
Proof. intros H. unfold schedule, bind, get. by rewrite H. Qed.

Lemma cancel_armed t w id :
  taskID w !! self t = Some id →
  cancel t w
  = (Normal tt, set_taskID (delete (self t)) (set_timers (delete id) w)).
Proof. intros H. unfold cancel, bind, get. by rewrite H. Qed.

Lemma cancel_idle t w :
  taskID w !! self t = None → cancel t w = (Normal tt, w).
Proof. intros H. unfold cancel, bind, get. by rewrite H. Qed.

(** C8.  While the [taskID] of a task is set, [schedule] throws the "already
    scheduled" error and changes nothing, and [cancel] takes the timer off
    the browser's list and clears [taskID].  While it is not set, [cancel]
    does nothing.  [cancel] never throws, and a second [cancel] right after
    the first does nothing. *)
Theorem schedule_twice_cancel_idempotent (t : DelayedTask) (w : World) :
  match taskID w !! self t with
  | Some id =>
      schedule t w = (Throw (Error "TASK ALREADY SCHEDULED"), w) ∧
      ∃ w', cancel t w = (Normal tt, w') ∧
            timers w' = delete id (timers w) ∧
            timers w' !! id = None ∧
            taskID w' !! self t = None
  | None => cancel t w = (Normal tt, w)
  end ∧
  (cancel t w).1 = Normal tt ∧
  cancel t (cancel t w).2 = (Normal tt, (cancel t w).2).
Proof.
  destruct (taskID w !! self t) as [id|] eqn:Hid.
  - rewrite (schedule_armed t w id Hid), (cancel_armed t w id Hid).
    split; [split; [done|]|split; [done|]].
    + eexists. split; [done|]. cbn. by rewrite !lookup_delete_eq.
    + apply cancel_idle. cbn. apply lookup_delete_eq.
  - rewrite (cancel_idle t w Hid). split; [done|]. split; [done|].
    by apply cancel_idle.
Qed.

(** ** Symbolic execution *)

Create HintDb js discriminated.

#[local] Hint Unfold
  ret bind throw try_catch lift get modify assign
  setTimeout clearInterval new_DelayedTask
  q_defer enqueue q_when q_reject derive promise_then promise_catch
  promise_finally http_get create rejectWithData
  getFormattedInput resetErrorState resetPaging
  incrementPage decrementPage resetRequestInitiation disableLoadMore
  onErrorOccurred onFetchMoreFailed run_callback conclude : js.

(** The functions that look a future or a task up are unfolded one call at a
    time, and only where the call stands on a world that is known. *)
Lemma unfold_settle p o w :
  settle p o w
  = match promises w !! p with
    | None | Some (mkPromise (Settled _) _) => (Normal tt, w)
    | Some (mkPromise _ rs) =>
        (Normal tt,
         set_queue (λ q, q ++ map (λ r, (r, o)) rs)
           (set_promises (insert p (mkPromise (Settled o) [])) w))
    end.
Proof.
  unfold settle. cbn. by destruct (promises w !! p) as [[[| |] ?]|].
Qed.

Lemma unfold_subscribe p r w :
  subscribe p r w
  = match promises w !! p with
    | None => (Normal tt, w)
    | Some (mkPromise (Settled o) _) => (Normal tt, set_queue (λ q, q ++ [(r, o)]) w)
    | Some (mkPromise st rs) =>
        (Normal tt, set_promises (insert p (mkPromise st (rs ++ [r]))) w)
    end.
Proof.
  unfold subscribe. cbn. by destruct (promises w !! p) as [[[| |] ?]|].
Qed.

Lemma unfold_resolve_with p q w :
  q ≠ p →
  resolve_with p (VPromise q) w
  = match promises w !! p with
    | Some (mkPromise Pending rs) =>
        subscribe q (mkReaction Adopt p)
          (set_promises (insert p (mkPromise Following rs)) w)
    | _ => (Normal tt, w)
    end.
Proof.
  intros Hne. unfold resolve_with. rewrite decide_False by done. cbn.
  by destruct (promises w !! p) as [[[| |] ?]|].
Qed.

Lemma unfold_resolve_with_undefined p w :
  resolve_with p VUndefined w = settle p (Fulfilled VUndefined) w.
Proof. reflexivity. Qed.

Lemma unfold_resolve_with_array p items w :
  resolve_with p (VArr items) w = settle p (Fulfilled (VArr items)) w.
Proof. reflexivity. Qed.

Lemma unfold_deferred_resolve d v w :
  deferred_resolve d v w
  = match promises w !! d with
    | Some (mkPromise Pending _) => resolve_with d v w
    | _ => (Normal tt, w)
    end.
Proof.
  unfold deferred_resolve. cbn. by destruct (promises w !! d) as [[[| |] ?]|].
Qed.

Lemma unfold_deferred_reject d reason w :
  deferred_reject d reason w
  = match promises w !! d with
    | Some (mkPromise Pending _) => settle d (Rejected reason) w
    | _ => (Normal tt, w)
    end.
Proof.
  unfold deferred_reject. cbn. by destruct (promises w !! d) as [[[| |] ?]|].
Qed.

Lemma unfold_tick w :
  tick w
  = match queue w with
    | [] => None
    | (r, o) :: due =>
        let w := set_queue (λ _, due) w in
        match handler r, o with
        | Then cb, Fulfilled v | Catch cb, Rejected v =>
            '(res, w) ← run_callback cb v w;
            Some (conclude (target r) res w).2
        | Then _, Rejected _ | Catch _, Fulfilled _ | Adopt, _ =>
            Some (settle (target r) o w).2
        | Finally cb, _ =>
            '(res, w) ← run_callback cb VUndefined w;
            match res with
            | Normal (VPromise _) => None
            | Normal _ => Some (settle (target r) o w).2
            | Throw e => Some (settle (target r) (Rejected e) w).2
            end
        end
    end.
Proof. reflexivity. Qed.

Lemma unfold_digest fuel w :
  digest (S fuel) w
  = match queue w with
    | [] => Some w
    | _ :: _ => tick w ≫= digest fuel
    end.
Proof. reflexivity. Qed.

Lemma digest_quiet fuel w : queue w = [] → digest fuel w = Some w.
Proof. intros H. destruct fuel; cbv [digest]; by rewrite H. Qed.

Ltac step_map :=
  first [ rewrite lookup_insert_eq
        | rewrite lookup_insert_ne by lia
        | rewrite lookup_delete_eq
        | rewrite lookup_delete_ne by lia ].

Ltac step_call :=
  first [ rewrite unfold_settle
        | rewrite unfold_subscribe
        | rewrite unfold_resolve_with by lia
        | rewrite unfold_resolve_with_undefined
        | rewrite unfold_resolve_with_array
        | rewrite unfold_deferred_resolve
        | rewrite unfold_deferred_reject
        | rewrite schedule_idle by (cbn; repeat step_map; reflexivity)
        | rewrite unfold_tick
        | rewrite digest_quiet by reflexivity
        | rewrite unfold_digest ].

(** Compute; where a lookup stands in the way, resolve it; where a call
    stands in the way, unfold it. *)
Ltac exec :=
  repeat first [ progress (autounfold with js; cbn) | step_map | step_call ].

(** ** GithubService: a page outside the window *)

Lemma q_reject_eq reason w :
  q_reject reason w
  = (Normal (next_promise w),
     mkWorld (timers w) (next_timer w) (taskID w) (next_task w)
       (<[next_promise w := mkPromise (Settled (Rejected reason)) []]> (promises w))
       (Pos.succ (next_promise w)) (queue w) (requests w) (ctrl w)).
Proof. exec. by rewrite insert_insert_eq, app_nil_r. Qed.

Lemma out_of_range_iff pageNumber :
  (pageNumber >? PAGE_LIMIT) || (pageNumber <? START_PAGE) = true
  ↔ pageNumber < START_PAGE ∨ pageNumber > PAGE_LIMIT.
Proof. rewrite orb_true_iff, Z.gtb_gt, Z.ltb_lt. lia. Qed.

Lemma in_range_iff pageNumber :
  (pageNumber >? PAGE_LIMIT) || (pageNumber <? START_PAGE) = false
  ↔ START_PAGE ≤ pageNumber ≤ PAGE_LIMIT.
Proof. rewrite orb_false_iff, Z.gtb_ltb, !Z.ltb_ge. lia. Qed.

Lemma searchByKeywordWithPaging_out_of_range keyword pageNumber w :
  pageNumber < START_PAGE ∨ pageNumber > PAGE_LIMIT →
  searchByKeywordWithPaging keyword pageNumber w
  = (Normal (mkStructuredDelayedTask dummyDelayedTask (next_promise w)),
     mkWorld (timers w) (next_timer w) (taskID w) (next_task w)
       (<[next_promise w :=
            mkPromise (Settled (Rejected (VObj [("message", VStr (paging_message keyword pageNumber))]))) []]>
          (promises w))
       (Pos.succ (next_promise w)) (queue w) (requests w) (ctrl w)).
Proof.
  intros Hout%out_of_range_iff. unfold searchByKeywordWithPaging.
  rewrite Hout. unfold bind at 1. by rewrite q_reject_eq.
Qed.

(** C1.  For a page below [START_PAGE] or above [PAGE_LIMIT],
    [searchByKeywordWithPaging] returns the service's dummy task, whose job
    is the no-op function (a call to it does nothing), paired with a future
    that is already rejected with an object whose [message] contains the
    page number and the keyword.  The call arms no timer (the browser's
    timers and every [taskID] are as before), issues no request and makes
    no callback due. *)
Theorem searchByKeywordWithPaging_rejects (keyword : string) (pageNumber : Z) (w : World) :
  pageNumber < START_PAGE ∨ pageNumber > PAGE_LIMIT →
  ∃ (p : positive) (message : string) (w' : World),
    searchByKeywordWithPaging keyword pageNumber w
    = (Normal (mkStructuredDelayedTask dummyDelayedTask p), w') ∧
    job dummyDelayedTask = noOpFunction ∧
    (∀ w0, run_job noOpFunction w0 = (Normal VUndefined, w0)) ∧
    promises w' !! p
    = Some (mkPromise (Settled (Rejected (VObj [("message", VStr message)]))) []) ∧
    message = paging_message keyword pageNumber ∧
    mentions message keyword ∧
    mentions message (number_to_string pageNumber) ∧
    timers w' = timers w ∧ next_timer w' = next_timer w ∧
    taskID w' = taskID w ∧
    requests w' = requests w ∧
    queue w' = queue w.
Proof.
  intros Hout. eexists _, (paging_message keyword pageNumber), _.
  split; [by apply searchByKeywordWithPaging_out_of_range|].
  split; [reflexivity|]. split; [done|]. cbn. split; [apply lookup_insert_eq|].
  split; [reflexivity|]. split; [|split; [|done]].
  - unfold paging_message.
    rewrite <- (append_assoc _ (number_to_string pageNumber)).
    rewrite <- append_assoc. apply mentions_end.
  - apply mentions_middle.
Qed.

Lemma searchByKeywordWithPaging_rejects_witness :
  (11 < START_PAGE ∨ 11 > PAGE_LIMIT) ∧
  ∃ (p : positive) (message : string) (w' : World),
    searchByKeywordWithPaging "gecko" 11 init
    = (Normal (mkStructuredDelayedTask dummyDelayedTask p), w') ∧
    promises w' !! p
    = Some (mkPromise (Settled (Rejected (VObj [("message", VStr message)]))) []) ∧
    mentions message "gecko" ∧
    mentions message (number_to_string 11) ∧
    timers w' = timers init ∧
    requests w' = requests init.
Proof.
  assert (11 < START_PAGE ∨ 11 > PAGE_LIMIT) as Hout
    by (right; unfold PAGE_LIMIT; lia).
  split; [exact Hout|].
  destruct (searchByKeywordWithPaging_rejects "gecko" 11 init Hout)
    as (p & message & w' & Hcall & _ & _ & Hp & _ & Hk & Hn & Ht & _ & _ & Hr & _).
  exists p, message, w'. auto 10.
Defined.

(** ** Code that leaves the tasks alone *)

Lemma keeps_ret {A} (a : A) : keeps_tasks (ret a).
Proof. by intros w. Qed.

Lemma keeps_lift {A} (r : result A) : keeps_tasks (lift r).
Proof. by intros w. Qed.

Lemma keeps_get {A} (f : World → A) : keeps_tasks (get f).
Proof. by intros w. Qed.

Lemma keeps_bind {A B} (m : M A) (k : A → M B) :
  keeps_tasks m → (∀ a, keeps_tasks (k a)) → keeps_tasks (bind m k).
Proof.
  intros Hm Hk w. unfold bind. specialize (Hm w).
  destruct (m w) as [[a|e] w1]; cbn in *; [|done].
  by rewrite Hk.
Qed.

Lemma keeps_try_catch {A} (m : M A) (h : value → M A) :
  keeps_tasks m → (∀ e, keeps_tasks (h e)) → keeps_tasks (try_catch m h).
Proof.
  intros Hm Hh w. unfold try_catch. specialize (Hm w).
  destruct (m w) as [[a|e] w1]; cbn in *; [done|].
  by rewrite Hh.
Qed.

Lemma keeps_modify (f : World → World) :
  (∀ w, taskID (f w) = taskID w) → keeps_tasks (modify f).
Proof. intros Hf w. apply Hf. Qed.

Lemma keeps_q_defer : keeps_tasks q_defer.
Proof. by intros w. Qed.

Lemma keeps_enqueue due : keeps_tasks (enqueue due).
Proof. by intros w. Qed.

Lemma keeps_settle p o : keeps_tasks (settle p o).
Proof.
  unfold settle. apply keeps_bind; [apply keeps_get|].
  intros [[[| |o'] rs]|]; try apply keeps_ret.
  all: apply keeps_bind; [apply keeps_modify; by intros ?|];
    intros; apply keeps_enqueue.
Qed.

Lemma keeps_subscribe p r : keeps_tasks (subscribe p r).
Proof.
  unfold subscribe. apply keeps_bind; [apply keeps_get|].
  intros [[[| |o'] rs]|]; try apply keeps_ret; try apply keeps_enqueue.
  all: apply keeps_modify; by intros ?.
Qed.

Lemma keeps_resolve_with p v : keeps_tasks (resolve_with p v).
Proof.
  unfold resolve_with. destruct v; try apply keeps_settle.
  case_decide; [apply keeps_settle|].
  apply keeps_bind; [apply keeps_get|]. intros [[[| |]]|]; try apply keeps_ret.
  apply keeps_bind; [|intros; apply keeps_subscribe].
  apply keeps_modify. by intros ?.
Qed.

Lemma keeps_deferred_resolve d v : keeps_tasks (deferred_resolve d v).
Proof.
  unfold deferred_resolve. apply keeps_bind; [apply keeps_get|].
  intros [[[| |]]|]; try apply keeps_ret. apply keeps_resolve_with.
Qed.

Lemma keeps_deferred_reject d r : keeps_tasks (deferred_reject d r).
Proof.
  unfold deferred_reject. apply keeps_bind; [apply keeps_get|].
  intros [[[| |]]|]; try apply keeps_ret. apply keeps_settle.
Qed.

Lemma keeps_derive p h : keeps_tasks (derive p h).
Proof.
  unfold derive. apply keeps_bind; [apply keeps_q_defer|]. intros q.
  apply keeps_bind; [apply keeps_subscribe|]. intros; apply keeps_ret.
Qed.

Lemma keeps_run_job j : keeps_tasks (run_job j).
Proof.
  induction j as [|term targetPage|j IH deferred|does]; cbn [run_job].
  - apply keeps_ret.
  - apply keeps_bind.
    { unfold http_get. apply keeps_bind; [apply keeps_q_defer|]. intros h.
      apply keeps_bind; [apply keeps_modify; by intros ?|].
      intros; apply keeps_ret. }
    intros h. apply keeps_bind; [apply keeps_derive|]. intros h1.
    apply keeps_bind; [apply keeps_derive|]. intros; apply keeps_ret.
  - apply keeps_try_catch.
    + apply keeps_bind; [exact IH|]. intros result.
      apply keeps_bind.
      { unfold q_when. apply keeps_bind; [apply keeps_q_defer|]. intros d.
        apply keeps_bind; [apply keeps_deferred_resolve|].
        intros; apply keeps_ret. }
      intros p. apply keeps_bind; [apply keeps_deferred_resolve|].
      intros; apply keeps_ret.
    + intros e. apply keeps_bind; [apply keeps_lift|]. intros data.
      apply keeps_bind; [apply keeps_deferred_reject|].
      intros; apply keeps_ret.
  - apply keeps_lift.
Qed.

Lemma run_callback_taskID cb arg w r w' :
  run_callback cb arg w = Some (r, w') → taskID w' = taskID w.
Proof.
  destruct cb; cbn [run_callback].
  - destruct (createResultBeans arg); cbn; congruence.
  - intros H. apply (inj Some) in H. unfold rejectWithData, bind, lift in H.
    destruct (get_prop arg "data"); [rewrite q_reject_eq in H; cbn in H|]; by simplify_eq.
  - destruct arg; try done. intros H. apply (inj Some) in H.
    unfold onSearchResultsReceived in H.
    destruct (length items =? 0)%nat;
      autounfold with js in H; cbn in H; by simplify_eq.
  - intros H. apply (inj Some) in H. autounfold with js in H. cbn in H.
    by simplify_eq.
  - intros H. apply (inj Some) in H. autounfold with js in H. cbn in H.
    by simplify_eq.
  - intros H. apply (inj Some) in H. autounfold with js in H. cbn in H.
    by simplify_eq.
Qed.

Lemma tick_taskID w w' : tick w = Some w' → taskID w' = taskID w.
Proof.
  unfold tick. destruct (queue w) as [|[[h q] o] due]; [done|].
  set (w0 := set_queue (λ _, due) w).
  assert (taskID w0 = taskID w) as Hw0 by done.
  assert (∀ o' w1, taskID (settle q o' w1).2 = taskID w1) as Hsettle
    by (intros; apply keeps_settle).
  assert (∀ cb v, (run_callback cb v w0 ≫= λ '(res, w1), Some (conclude q res w1).2) = Some w' →
                  taskID w' = taskID w) as Hcall.
  { intros cb v. destruct (run_callback cb v w0) as [[res w1]|] eqn:Hcb; [|done].
    cbn [mbind option_bind]. intros [= <-]. apply run_callback_taskID in Hcb.
    rewrite <- Hw0, <- Hcb. unfold conclude.
    destruct res; [apply keeps_resolve_with|apply keeps_settle]. }
  cbn [handler target].
  destruct h as [cb|cb|cb|], o as [v|v];
    try (exact (Hcall cb v));
    try (intros [= <-]; by rewrite Hsettle).
  all: destruct (run_callback cb VUndefined w0) as [[res w1]|] eqn:Hcb; [|done];
    apply run_callback_taskID in Hcb; cbn [mbind option_bind];
    destruct res as [[]|e]; try done; intros [= <-]; rewrite Hsettle; congruence.
Qed.

Lemma digest_taskID fuel w w' : digest fuel w = Some w' → taskID w' = taskID w.
Proof.
  revert w. induction fuel as [|fuel IH]; intros w.
  - cbv [digest]. destruct (queue w); [|done]. by intros [= <-].
  - rewrite unfold_digest. destruct (queue w); [by intros [= <-]|].
    destruct (tick w) as [w1|] eqn:Htick; [|done]. cbn [mbind option_bind].
    intros Hd%IH. apply tick_taskID in Htick. congruence.
Qed.

(** Firing a timer, and the callbacks that follow, leave every [taskID] as
    it is. *)
Lemma TimerFires_taskID id w w' :
  Step w (TimerFires id) w' → taskID w' = taskID w.
Proof.
  intros (w1 & Hact & fuel & Hd). apply digest_taskID in Hd. rewrite Hd.
  cbn [act] in Hact. destruct (timers w !! id) as [[callback ms]|]; [|done].
  cbn in Hact. injection Hact as <-. by rewrite keeps_run_job.
Qed.

(** C3, as the code has it.  Firing does not clear [taskID]: when a task has
    been scheduled and its timer has fired, with no [cancel] in between,
    [taskID] still holds the handle of the timer that fired and [schedule]
    throws the "already scheduled" error.  [cancel] clears it, and after
    that [schedule] arms a new timer. *)
Theorem schedule_after_firing (t : DelayedTask) (w w1 : World) :
  taskID w !! self t = None →
  Step (schedule t w).2 (TimerFires (next_timer w)) w1 →
  taskID w1 !! self t = Some (next_timer w) ∧
  schedule t w1 = (Throw (Error "TASK ALREADY SCHEDULED"), w1) ∧
  ∃ w2 w3, cancel t w1 = (Normal tt, w2) ∧
           schedule t w2 = (Normal tt, w3) ∧
           taskID w3 !! self t = Some (next_timer w2) ∧
           timers w3 !! next_timer w2 = Some (job t, delay t).
Proof.
  intros Hidle Hfired. apply TimerFires_taskID in Hfired.
  rewrite (schedule_idle t w Hidle) in Hfired. cbn in Hfired.
  assert (taskID w1 !! self t = Some (next_timer w)) as Harmed.
  { rewrite Hfired. apply lookup_insert_eq. }
  split; [exact Harmed|]. split; [by eapply schedule_armed|].
  rewrite (cancel_armed t w1 _ Harmed). eexists _, _. split; [reflexivity|].
  rewrite schedule_idle by (cbn; apply lookup_delete_eq).
  split; [reflexivity|]. cbn. by rewrite !lookup_insert_eq.
Qed.

Lemma schedule_after_firing_witness :
  let t := mkDelayedTask noOpFunction 0 2%positive in
  taskID init !! self t = None ∧
  ∃ w1, Step (schedule t init).2 (TimerFires (next_timer init)) w1 ∧
        schedule t w1 = (Throw (Error "TASK ALREADY SCHEDULED"), w1).
Proof.
  intros t. split; [reflexivity|].
  assert (∃ w1, Step (schedule t init).2 (TimerFires (next_timer init)) w1)
    as [w1 Hstep].
  { eexists. eexists. split; [reflexivity|]. exists 0%nat. reflexivity. }
  exists w1. split; [exact Hstep|].
  exact (proj1 (proj2 (schedule_after_firing t init w1 eq_refl Hstep))).
Defined.

(** C3, as stated, fails: a task is created and scheduled, its timer fires,
    nobody cancels, and the second [schedule] throws. *)
Lemma schedule_after_firing_throws :
  ∃ t w0 w1 w2,
    new_DelayedTask noOpFunction 0 init = (Normal t, w0) ∧
    schedule t w0 = (Normal tt, w1) ∧
    Step w1 (TimerFires 1) w2 ∧
    schedule t w2 = (Throw (Error "TASK ALREADY SCHEDULED"), w2).
Proof.
  eexists _, _, _, _. split; [reflexivity|]. split; [reflexivity|].
  split; [eexists; split; [reflexivity|exists 0%nat; reflexivity]|].
  reflexivity.
Qed.

(** ** Runs *)

Lemma run_Run fuel es w w' : run fuel es w = Some w' → Run w es w'.
Proof.
  revert w. induction es as [|e es IH]; intros w; cbn [run].
  - intros [= <-]. constructor.
  - destruct (act e w) as [w1|] eqn:Hact; [|done]. cbn [mbind option_bind].
    destruct (digest fuel w1) as [w2|] eqn:Hdigest; [|done]. cbn [mbind option_bind].
    intros Hrun. econstructor; [|by apply IH].
    exists w1. split; [done|]. by exists fuel.
Qed.

(** More fuel does not change what a digest arrives at. *)
Lemma digest_mono fuel fuel' w w' :
  (fuel ≤ fuel')%nat → digest fuel w = Some w' → digest fuel' w = Some w'.
Proof.
  revert fuel' w. induction fuel as [|fuel IH]; intros fuel' w Hle.
  - cbv [digest]. destruct (queue w) eqn:Hq; [|done].
    intros [= <-]. by apply digest_quiet.
  - destruct fuel' as [|fuel']; [lia|]. rewrite !unfold_digest.
    destruct (queue w); [done|].
    destruct (tick w) as [w1|]; [|done]. cbn [mbind option_bind].
    apply IH. lia.
Qed.

Lemma Digests_functional w w1 w2 : Digests w w1 → Digests w w2 → w1 = w2.
Proof.
  intros [n1 H1] [n2 H2].
  apply (digest_mono n1 (n1 `max` n2)) in H1; [|lia].
  apply (digest_mono n2 (n1 `max` n2)) in H2; [|lia].
  congruence.
Qed.

(** An event leads to one page. *)
Lemma Step_functional w e w1 w2 : Step w e w1 → Step w e w2 → w1 = w2.
Proof.
  intros (v1 & Hact1 & Hd1) (v2 & Hact2 & Hd2).
  assert (v1 = v2) as -> by congruence. by eapply Digests_functional.
Qed.

Lemma Run_functional w es w1 w2 : Run w es w1 → Run w es w2 → w1 = w2.
Proof.
  intros Hrun1. revert w2. induction Hrun1 as [w|w e v1 es w1 Hstep1 Hrun1 IH].
  - intros w2 Hrun2. by inversion Hrun2.
  - intros w2 Hrun2. inversion Hrun2 as [|? ? v2 ? ? Hstep2 Hrun2']; subst.
    rewrite (Step_functional _ _ _ _ Hstep1 Hstep2) in *. by apply IH.
Qed.

(** When the callbacks have run, none is due. *)
Lemma Digests_quiet w w' : Digests w w' → queue w' = [].
Proof.
  intros [fuel Hd]. revert w Hd. induction fuel as [|fuel IH]; intros w.
  - cbv [digest]. destruct (queue w) eqn:Hq; [|done]. by intros [= <-].
  - rewrite unfold_digest. destruct (queue w) eqn:Hq; [by intros [= <-]|].
    destruct (tick w) as [w1|]; [|done]. cbn [mbind option_bind]. apply IH.
Qed.

Lemma Step_quiet w e w' : Step w e w' → queue w' = [].
Proof. intros (w1 & _ & Hd). by eapply Digests_quiet. Qed.

(** ** SearchController: a new search *)

Lemma cancelJobIfStillActive_eq w :
  ∃ tm tk,
    cancelJobIfStillActive w
    = (Normal tt,
       mkWorld tm (next_timer w) tk (next_task w) (promises w) (next_promise w)
               (queue w) (requests w) (set_delayedJob None (ctrl w))) ∧
    tm ⊆ timers w ∧ tk ⊆ taskID w.
Proof.
  unfold cancelJobIfStillActive. destruct w as [tm nt tk nk ps np q rs c].
  destruct c as [term [dj|] page results can more load err]; cbn.
  - unfold cancel. cbn. destruct (tk !! self (handle dj)) as [id|]; cbn.
    + eexists _, _. split; [reflexivity|]. split; apply delete_subseteq.
    + eexists _, _. split; [reflexivity|]. done.
  - eexists _, _. split; [reflexivity|]. done.
Qed.

(** C2, as the code has it.  The empty term is the only one whose formatted
    form is empty.  For it [conductSearch] starts nothing: afterwards
    [searchResults] is empty, no job is held, [canInitiateRequests] has the
    value it had before (so it is [true] if it was), no timer has been
    armed, no request has been issued and no future has been made. *)
Theorem conductSearch_empty_term (w : World) :
  searchTerm (ctrl w) = "" →
  (∀ term, formatted term = "" ↔ term = "") ∧
  ∃ w', conductSearch w = (Normal tt, w') ∧
        searchResults (ctrl w') = [] ∧
        canInitiateRequests (ctrl w') = canInitiateRequests (ctrl w) ∧
        delayedJob (ctrl w') = None ∧
        timers w' ⊆ timers w ∧ next_timer w' = next_timer w ∧
        requests w' = requests w ∧
        promises w' = promises w ∧ next_promise w' = next_promise w ∧
        queue w' = queue w.
Proof.
  intros Hterm. split; [apply formatted_empty_iff|].
  destruct (cancelJobIfStillActive_eq w) as (tm & tk & Hcancel & Htm & Htk).
  unfold conductSearch, getFormattedInput. cbn.
  rewrite Hcancel, Hterm. cbn. eexists. split; [reflexivity|]. cbn. done.
Qed.

Lemma conductSearch_empty_term_witness :
  searchTerm (ctrl init) = "" ∧
  ∃ w', conductSearch init = (Normal tt, w') ∧
        searchResults (ctrl w') = [] ∧
        canInitiateRequests (ctrl w') = true ∧
        delayedJob (ctrl w') = None ∧
        requests w' = [].
Proof.
  split; [reflexivity|].
  destruct (conductSearch_empty_term init eq_refl)
    as (_ & w' & Hcall & Hresults & Hcan & Hjob & _ & _ & Hrequests & _).
  exists w'. auto.
Defined.

(** C2, as stated, fails: with a single space as the term, a search arms a
    timer for the term "+" and takes [canInitiateRequests] to [false]; when
    the timer fires the request goes out. *)
Lemma conductSearch_blank_term_requests :
  ∃ w' w'',
    Run init [UserTypes " "; UserSearches] w' ∧
    canInitiateRequests (ctrl w') = false ∧
    is_Some (delayedJob (ctrl w')) ∧
    timers w' !! 1%positive = Some (factoryJob (searchGitHubRepos "+" 1) 1, TIME_DELAY) ∧
    Run w' [TimerFires 1] w'' ∧
    requests w''
    = [("https://api.github.com/legacy/repos/search/+?start_page=1", 5%positive)].
Proof.
  eexists _, _. split; [apply (run_Run 0); vm_compute; reflexivity|].
  split; [reflexivity|]. split; [eexists; reflexivity|].
  split; [reflexivity|]. split; [apply (run_Run 0); vm_compute; reflexivity|].
  reflexivity.
Qed.

(** ** DelayedTaskFactory and the search job *)

Lemma create_eq j ms w :
  create j ms w
  = (Normal (mkStructuredDelayedTask
               (mkDelayedTask (factoryJob j (next_promise w)) ms (next_task w))
               (next_promise w)),
     mkWorld (timers w) (next_timer w) (delete (next_task w) (taskID w))
             (Pos.succ (next_task w))
             (<[next_promise w := mkPromise Pending []]> (promises w))
             (Pos.succ (next_promise w)) (queue w) (requests w) (ctrl w)).
Proof. reflexivity. Qed.

Lemma searchByKeywordWithPaging_in_range keyword pageNumber w :
  START_PAGE ≤ pageNumber ≤ PAGE_LIMIT →
  searchByKeywordWithPaging keyword pageNumber w
  = (Normal (mkStructuredDelayedTask
               (mkDelayedTask (factoryJob (searchGitHubRepos keyword pageNumber) (next_promise w))
                              TIME_DELAY (next_task w))
               (next_promise w)),
     mkWorld (<[next_timer w :=
                  (factoryJob (searchGitHubRepos keyword pageNumber) (next_promise w), TIME_DELAY)]>
                (timers w))
             (Pos.succ (next_timer w))
             (<[next_task w := next_timer w]> (delete (next_task w) (taskID w)))
             (Pos.succ (next_task w))
             (<[next_promise w := mkPromise Pending []]> (promises w))
             (Pos.succ (next_promise w)) (queue w) (requests w) (ctrl w)).
Proof.
  intros Hin%in_range_iff. unfold searchByKeywordWithPaging. rewrite Hin.
  exec. reflexivity.
Qed.

Lemma awaited_last h w url rs reacts :
  requests w = rs ++ [(url, h)] →
  promises w !! h = Some (mkPromise Pending reacts) →
  awaited h w = true.
Proof.
  intros Hrequests Hpending. unfold awaited. rewrite Hrequests, Hpending.
  rewrite existsb_app. cbn. rewrite bool_decide_true by done.
  by rewrite orb_true_r.
Qed.

(** C5, as the code has it.  Take a job handed to [create], whose task is
    then scheduled and fires.
    - If the job throws [e], and [e] is neither [undefined] nor [null], the
      future is rejected with [e.data].
    - If the job returns a future that nothing else hangs on and that is
      later rejected with [r], the future is rejected with [r] itself,
      whatever [r] is: the factory does not take a [data] member out of it.
    - For the job that [searchGitHubRepos] builds, a failure [r] (a failed
      response, or what [createResultBeans] throws) nevertheless surfaces
      as [r.data], because that job's own [catch] rejects with the [data]
      of what it catches. *)
Theorem create_rejects (w : World) (ms : Z) :
  queue w = [] →
  (∀ e data,
     get_prop e "data" = Normal data →
     ∃ sdt w1 w2 w3,
       create (otherJob (Throw e)) ms w = (Normal sdt, w1) ∧
       schedule (handle sdt) w1 = (Normal tt, w2) ∧
       Step w2 (TimerFires (next_timer w)) w3 ∧
       rejected_with w3 (promise sdt) data) ∧
  (∀ p r,
     promises w !! p = Some (mkPromise Pending []) →
     (p < next_promise w)%positive →
     ∃ sdt w1 w2 w3 w4,
       create (otherJob (Normal (VPromise p))) ms w = (Normal sdt, w1) ∧
       schedule (handle sdt) w1 = (Normal tt, w2) ∧
       Step w2 (TimerFires (next_timer w)) w3 ∧
       Digests (deferred_reject p r w3).2 w4 ∧
       rejected_with w4 (promise sdt) r) ∧
  (∀ term page o r,
     START_PAGE ≤ page ≤ PAGE_LIMIT →
     fails_with o r →
     ∃ sdt w1 w2 h w3,
       searchByKeywordWithPaging term page w = (Normal sdt, w1) ∧
       Step w1 (TimerFires (next_timer w)) w2 ∧
       requests w2 = requests w ++ [(createGithubSearchURL term page, h)] ∧
       Step w2 (ResponseArrives h o) w3 ∧
       rejected_with w3 (promise sdt) (payload r)).
Proof.
  intros Hq. destruct w as [tm nt tk nk ps np q rs c]. cbn in Hq. subst q.
  split; [|split].
  - intros e data Hdata. eexists _, _, _, _. split; [apply create_eq|].
    split; [exec; reflexivity|].
    split.
    + eexists. split; [cbn; exec; rewrite Hdata; exec; reflexivity|].
      by exists 0%nat.
    + eexists. cbn. by rewrite lookup_insert_eq.
  - intros p r Hp Hlt. cbn in Hp, Hlt.
    eexists _, _, _, _, _. split; [apply create_eq|].
    split; [exec; reflexivity|].
    split.
    { eexists. split; [cbn; exec; rewrite Hp; exec; reflexivity|].
      by exists 0%nat. }
    split; [exists 2%nat; exec; reflexivity|].
    eexists. cbn. by rewrite lookup_insert_eq.
  - intros term page o r Hin Hfails. unfold payload.
    destruct (get_prop r "data") as [data|e] eqn:Hdata.
    all: destruct Hfails as [->|(response & -> & Hthrows)].
    all: eexists _, _, _, _, _.
    all: split; [by apply searchByKeywordWithPaging_in_range|].
    all: split; [eexists; split; [cbn; exec; reflexivity|by exists 0%nat]|].
    all: split; [reflexivity|].
    all: split;
      [eexists; split;
       [cbn [act]; erewrite awaited_last;
        [reflexivity|reflexivity|cbn; repeat step_map; reflexivity]
       |exists 5%nat; exec; rewrite ?Hthrows; exec; rewrite Hdata; exec;
        reflexivity]|].
    all: eexists; cbn; by rewrite lookup_insert_eq.
Qed.

Lemma create_rejects_witness :
  queue init = [] ∧
  (∃ sdt w1 w2 w3,
     create (otherJob (Throw (error_response 500 (VStr "boom")))) 0 init = (Normal sdt, w1) ∧
     schedule (handle sdt) w1 = (Normal tt, w2) ∧
     Step w2 (TimerFires (next_timer init)) w3 ∧
     rejected_with w3 (promise sdt) (VStr "boom")) ∧
  (∃ sdt w1 w2 h w3,
     searchByKeywordWithPaging "gecko" 1 init = (Normal sdt, w1) ∧
     Step w1 (TimerFires (next_timer init)) w2 ∧
     requests w2 = requests init ++ [(createGithubSearchURL "gecko" 1, h)] ∧
     Step w2 (ResponseArrives h (Rejected (error_response 403 (VStr "rate limit")))) w3 ∧
     rejected_with w3 (promise sdt) (VStr "rate limit")).
Proof.
  split; [reflexivity|].
  destruct (create_rejects init 0 eq_refl) as (Hthrow & _ & Hsearch).
  split.
  - exact (Hthrow (error_response 500 (VStr "boom")) (VStr "boom") eq_refl).
  - apply (Hsearch "gecko" 1 (Rejected (error_response 403 (VStr "rate limit")))
                   (error_response 403 (VStr "rate limit"))).
    + unfold START_PAGE, PAGE_LIMIT. lia.
    + by left.
Defined.

(** C5, as stated, fails for a job whose future is rejected: the future of
    the task is rejected with the whole object that the job's future was
    rejected with, not with its [data]. *)
Lemma create_passes_rejection_on :
  ∃ p sdt w0 w1 w2 w3 w4,
    q_defer init = (Normal p, w0) ∧
    create (otherJob (Normal (VPromise p))) 0 w0 = (Normal sdt, w1) ∧
    schedule (handle sdt) w1 = (Normal tt, w2) ∧
    Step w2 (TimerFires 1) w3 ∧
    Digests (deferred_reject p (error_response 500 (VStr "boom")) w3).2 w4 ∧
    get_prop (error_response 500 (VStr "boom")) "data" = Normal (VStr "boom") ∧
    promises w4 !! promise sdt
    = Some (mkPromise (Settled (Rejected (error_response 500 (VStr "boom")))) []) ∧
    error_response 500 (VStr "boom") ≠ VStr "boom".
Proof.
  eexists _, _, _, _, _, _, _.
  split; [reflexivity|]. split; [reflexivity|]. split; [reflexivity|].
  split; [eexists; split; [vm_compute; reflexivity|exists 0%nat; reflexivity]|].
  split; [exists 2%nat; vm_compute; reflexivity|].
  split; [reflexivity|]. split; [vm_compute; reflexivity|discriminate].
Qed.

(** ** SearchController: a fetch that fails *)




(** ** SearchController: a fetch that succeeds *)

(** X21.  From the click to the list: on a page where no callback is due,
    the user loads more, the timer fires and the response arrives with its
    records.  A batch that is not empty is appended and [canLoadMore] is
    left alone; an empty one closes [canLoadMore] and leaves the list
    alone.  Either way the page stays incremented and the request gate is
    open again. *)
Lemma fetchMoreResults_success (w : World) (response : value) (raws : list (list (string * value))) :
  queue w = [] →
  START_PAGE ≤ currentPage (ctrl w) + 1 ≤ PAGE_LIMIT →
  carries response (map VObj raws) →
  ∃ w1 w2 h w3,
    Step w UserLoadsMore w1 ∧
    Step w1 (TimerFires (next_timer w)) w2 ∧
    requests w2
    = requests w ++ [(createGithubSearchURL (formatted (searchTerm (ctrl w)))
                                            (currentPage (ctrl w) + 1), h)] ∧
    Step w2 (ResponseArrives h (Fulfilled response)) w3 ∧
    searchResults (ctrl w3) = searchResults (ctrl w) ++ map SearchResult raws ∧
    canLoadMore (ctrl w3)
    = (if decide (raws = []) then VBool false else canLoadMore (ctrl w)) ∧
    currentPage (ctrl w3) = currentPage (ctrl w) + 1 ∧
    error (ctrl w3) = VNull ∧
    canInitiateRequests (ctrl w3) = true.
Proof.
  intros Hq Hin Hcarries%createResultBeans_objects.
  destruct (cancelJobIfStillActive_eq w) as (tm & tk & Hcancel & _ & _).
  destruct w as [tm0 nt tk0 nk ps np q rs c]. cbn in Hq, Hcancel, Hin. subst q.
  destruct raws as [|raw raws].
  all: eexists _, _, _, _.
  all: split;
    [eexists; split;
     [cbn [act]; unfold fetchMoreResults; cbn; rewrite Hcancel; cbn;
      rewrite searchByKeywordWithPaging_in_range by exact Hin;
      exec; reflexivity
     |by exists 0%nat]|].
  all: split; [eexists; split; [cbn; exec; reflexivity|by exists 0%nat]|].
  all: split; [reflexivity|].
  all: split;
    [eexists; split;
     [cbn [act]; erewrite awaited_last;
      [reflexivity|reflexivity|cbn; repeat step_map; reflexivity]
     |exists 7%nat; exec; rewrite Hcarries; exec; reflexivity]|].
  all: cbn; repeat split.
  by rewrite app_nil_r.
Qed.

(** The example of the search for "foo bar": one request, for the term
    "foo+bar" and page 1, and one record in the list. *)
Example search_foo_bar :
  let record :=
    [("owner", VStr "o"); ("name", VStr "n"); ("language", VStr "JS");
     ("followers", VNum 3); ("url", VStr "u"); ("description", VStr "d")] in
  ∃ w,
    Run init [UserTypes "foo bar"; UserSearches; TimerFires 1;
              ResponseArrives 5 (Fulfilled (ok_response [VObj record]))] w ∧
    requests w
    = [("https://api.github.com/legacy/repos/search/foo+bar?start_page=1", 5%positive)] ∧
    searchResults (ctrl w) = [VObj record] ∧
    canLoadMore (ctrl w) = VBool true.
Proof.
  eexists. split; [apply (run_Run 8); vm_compute; reflexivity|].
  repeat split.
Qed.

(** * Further properties *)

(** ** Formatting the term *)

Lemma join_cons_char sep c piece pieces :
  join sep (String c piece :: pieces) = String c (join sep (piece :: pieces)).
Proof. by destruct pieces. Qed.

Lemma formatted_cons c term :
  formatted (String c term) = String (plus_for_space c) (formatted term).
Proof.
  unfold formatted, plus_for_space. cbn [split].
  pose proof (split_not_nil " " term) as Hne.
  destruct (Ascii.eqb c " ").
  - by destruct (split " " term).
  - destruct (split " " term) as [|piece pieces]; [done|].
    apply join_cons_char.
Qed.

(** X1.  [getFormattedInput] turns every space of the term into a plus sign
    and leaves every other character where it is: nothing is trimmed and
    runs of spaces are not collapsed.  So the formatted term is as long as
    the term and has no space in it. *)
Theorem formatted_replaces_spaces (term : string) :
  formatted term = map_string plus_for_space term ∧
  String.length (formatted term) = String.length term ∧
  ∀ n, String.get n (formatted term) ≠ Some " "%char.
Proof.
  induction term as [|c term (IH1 & IH2 & IH3)]; [by repeat split|].
  rewrite formatted_cons. split; [|split].
  - cbn [map_string]. by rewrite IH1.
  - cbn [String.length]. by rewrite IH2.
  - intros [|n]; cbn [String.get]; [|apply IH3].
    unfold plus_for_space. destruct (Ascii.eqb_spec c " "); congruence.
Qed.

(** ** Normalising a response, in full *)

Lemma bean_cases raw :
  bean raw = if nullish raw then Throw TypeError
             else Normal (SearchResult (fields_of raw)).
Proof. by destruct raw. Qed.

Lemma createResultBeans_loop_cases rawData results :
  createResultBeans_loop rawData results
  = if existsb nullish rawData then Throw TypeError
    else Normal (results ++ map (λ raw, SearchResult (fields_of raw)) rawData).
Proof.
  revert results. induction rawData as [|raw rawData IH]; intros results.
  - cbn. by rewrite app_nil_r.
  - cbn [createResultBeans_loop existsb map]. rewrite bean_cases.
    destruct (nullish raw); [done|]. cbn [result_bind orb]. rewrite IH.
    destruct (existsb nullish rawData); [done|]. by rewrite <- app_assoc.
Qed.

(** X2.  On a response that carries an array, [createResultBeans] is all or
    nothing.  If an element of the array is [undefined] or [null] it throws
    a [TypeError] and no record comes out; otherwise it returns one record
    per element, in order, each with exactly the six fields (an element
    that is not an object gives six times [undefined]). *)
Theorem createResultBeans_array (response : value) (rawData : list value) :
  carries response rawData →
  createResultBeans response
  = Some (if existsb nullish rawData then Throw TypeError
          else Normal (VArr (map (λ raw, SearchResult (fields_of raw)) rawData))).
Proof.
  intros (data & Hdata & Hrepos). unfold createResultBeans.
  rewrite Hdata, Hrepos, createResultBeans_loop_cases.
  by destruct (existsb nullish rawData).
Qed.

Lemma createResultBeans_array_witness :
  carries (ok_response [VObj gecko; VNum 7]) [VObj gecko; VNum 7] ∧
  carries (ok_response [VObj gecko; VNull]) [VObj gecko; VNull] ∧
  createResultBeans (ok_response [VObj gecko; VNum 7])
  = Some (Normal (VArr [SearchResult gecko; SearchResult []])) ∧
  createResultBeans (ok_response [VObj gecko; VNull]) = Some (Throw TypeError).
Proof.
  assert (carries (ok_response [VObj gecko; VNum 7]) [VObj gecko; VNum 7]) as H1
    by (eexists; split; reflexivity).
  assert (carries (ok_response [VObj gecko; VNull]) [VObj gecko; VNull]) as H2
    by (eexists; split; reflexivity).
  split; [exact H1|]. split; [exact H2|]. split.
  - exact (createResultBeans_array _ _ H1).
  - exact (createResultBeans_array _ _ H2).
Defined.

(** X3.  A response that is [undefined] or [null], or has such a [data], or
    whose [data] has no [repositories] (or [null] for it), makes
    [createResultBeans] throw a [TypeError]; it never returns an empty list
    for it. *)
Theorem createResultBeans_malformed (response : value) :
  nullish response = true ∨
  (∃ data, get_prop response "data" = Normal data ∧
           (nullish data = true ∨
            ∃ rawData, get_prop data "repositories" = Normal rawData ∧
                       nullish rawData = true)) →
  createResultBeans response = Some (Throw TypeError).
Proof.
  unfold createResultBeans.
  intros [Hnull|(data & -> & [Hnull|(rawData & -> & Hnull)])].
  - by destruct response.
  - by destruct data.
  - by destruct rawData.
Qed.

Lemma createResultBeans_malformed_witness :
  (∃ data, get_prop (error_response 200 (VObj [("items", VArr [])])) "data" = Normal data ∧
           (nullish data = true ∨
            ∃ rawData, get_prop data "repositories" = Normal rawData ∧
                       nullish rawData = true)) ∧
  createResultBeans (error_response 200 (VObj [("items", VArr [])]))
  = Some (Throw TypeError).
Proof.
  assert (∃ data, get_prop (error_response 200 (VObj [("items", VArr [])])) "data" = Normal data ∧
           (nullish data = true ∨
            ∃ rawData, get_prop data "repositories" = Normal rawData ∧
                       nullish rawData = true)) as H.
  { eexists. split; [reflexivity|]. right. eexists. split; reflexivity. }
  split; [exact H|]. apply createResultBeans_malformed. by right.
Defined.

(** ** The address of a request *)

(** X4.  For one term, different pages give different addresses. *)
Theorem createGithubSearchURL_page_inj (term : string) (page page' : Z) :
  createGithubSearchURL term page = createGithubSearchURL term page' →
  page = page'.
Proof.
  unfold createGithubSearchURL, number_to_string. intros H.
  do 3 apply (inj (String.app _)) in H. by apply (inj pretty) in H.
Qed.

Lemma createGithubSearchURL_page_inj_witness :
  createGithubSearchURL "gecko" 2 = createGithubSearchURL "gecko" (1 + 1) ∧
  2 = 1 + 1.
Proof.
  assert (createGithubSearchURL "gecko" 2 = createGithubSearchURL "gecko" (1 + 1))
    as H by reflexivity.
  split; [exact H|]. exact (createGithubSearchURL_page_inj _ _ _ H).
Defined.

(** ** What the futures leave alone *)

(** The operations on futures write the store of futures and the list of
    due callbacks and nothing else.  Stated once for any [view] of the world
    that does not look at these, and used below for the timers, the request
    log and the page number. *)
Section Frame.
Context {X : Type} (view : World → X).
Hypothesis Hview : ignores_futures view.

Lemma preserves_ret {A} (a : A) : preserves view (ret a).
Proof. by intros w. Qed.

Lemma preserves_lift {A} (r : result A) : preserves view (lift r).
Proof. by intros w. Qed.

Lemma preserves_get {A} (f : World → A) : preserves view (get f).
Proof. by intros w. Qed.

Lemma preserves_bind {A B} (m : M A) (k : A → M B) :
  preserves view m → (∀ a, preserves view (k a)) → preserves view (bind m k).
Proof.
  intros Hm Hk w. cbn. specialize (Hm w).
  destruct (m w) as [[a|e] w1]; cbn in *; [|done]. by rewrite Hk.
Qed.

Lemma preserves_try_catch {A} (m : M A) (h : value → M A) :
  preserves view m → (∀ e, preserves view (h e)) → preserves view (try_catch m h).
Proof.
  intros Hm Hh w. cbn. specialize (Hm w).
  destruct (m w) as [[a|e] w1]; cbn in *; [done|]. by rewrite Hh.
Qed.

Lemma preserves_q_defer : preserves view q_defer.
Proof.
  destruct Hview as (Hp & Hn & _). intros w. unfold q_defer. cbn [snd].
  by rewrite Hn, Hp.
Qed.

Lemma preserves_enqueue due : preserves view (enqueue due).
Proof. destruct Hview as (_ & _ & Hq). intros w. apply Hq. Qed.

Lemma preserves_settle p o : preserves view (settle p o).
Proof.
  destruct Hview as (Hp & _ & Hq). intros w. rewrite unfold_settle.
  destruct (promises w !! p) as [[[| |] rs]|]; cbn [snd]; try done.
  all: by rewrite Hq, Hp.
Qed.

Lemma preserves_subscribe p r : preserves view (subscribe p r).
Proof.
  destruct Hview as (Hp & _ & Hq). intros w. rewrite unfold_subscribe.
  destruct (promises w !! p) as [[[| |] rs]|]; cbn [snd]; try done.
  all: by rewrite ?Hq, ?Hp.
Qed.

Lemma preserves_resolve_with p v : preserves view (resolve_with p v).
Proof.
  destruct v; try apply preserves_settle. intros w.
  destruct (decide (p0 = p)) as [->|Hne].
  - unfold resolve_with. rewrite decide_True by done. apply preserves_settle.
  - rewrite unfold_resolve_with by done.
    destruct (promises w !! p) as [[[| |] rs]|]; try done.
    rewrite preserves_subscribe. by destruct Hview as (-> & _).
Qed.

Lemma preserves_deferred_resolve d v : preserves view (deferred_resolve d v).
Proof.
  intros w. rewrite unfold_deferred_resolve.
  destruct (promises w !! d) as [[[| |] rs]|]; try done.
  apply preserves_resolve_with.
Qed.

Lemma preserves_deferred_reject d r : preserves view (deferred_reject d r).
Proof.
  intros w. rewrite unfold_deferred_reject.
  destruct (promises w !! d) as [[[| |] rs]|]; try done.
  apply preserves_settle.
Qed.

Lemma preserves_derive p h : preserves view (derive p h).
Proof.
  apply preserves_bind; [apply preserves_q_defer|]. intros q.
  apply preserves_bind; [apply preserves_subscribe|]. intros; apply preserves_ret.
Qed.

Lemma preserves_q_when v : preserves view (q_when v).
Proof.
  apply preserves_bind; [apply preserves_q_defer|]. intros d.
  apply preserves_bind; [apply preserves_deferred_resolve|].
  intros; apply preserves_ret.
Qed.

Lemma preserves_q_reject r : preserves view (q_reject r).
Proof.
  apply preserves_bind; [apply preserves_q_defer|]. intros d.
  apply preserves_bind; [apply preserves_deferred_reject|].
  intros; apply preserves_ret.
Qed.

Lemma try_bind_view {A B} (m : M A) (k : A → M B) (h : value → M B) w :
  (∀ a, preserves view (k a)) → (∀ e, preserves view (h e)) →
  view (try_catch (bind m k) h w).2 = view (m w).2.
Proof.
  intros Hk Hh. cbn. destruct (m w) as [[a|e] w1]; cbn [snd].
  - specialize (Hk a w1). destruct (k a w1) as [[b|e] w2]; cbn [snd] in *; [done|].
    by rewrite Hh.
  - apply Hh.
Qed.

(** What the wrapper of the factory adds to a call of the job shows in
    the futures only. *)
Lemma factoryJob_view j d w :
  view (run_job (factoryJob j d) w).2 = view (run_job j w).2.
Proof.
  cbn [run_job]. apply try_bind_view.
  - intros result. apply preserves_bind; [apply preserves_q_when|]. intros p.
    apply preserves_bind; [apply preserves_deferred_resolve|].
    intros; apply preserves_ret.
  - intros e. apply preserves_bind; [apply preserves_lift|]. intros data.
    apply preserves_bind; [apply preserves_deferred_reject|].
    intros; apply preserves_ret.
Qed.

Hypothesis Hscope : ignores_scope view.

Lemma preserves_assign g :
  (∀ c, delayedJob (g c) = delayedJob c) → preserves view (assign g).
Proof. intros Hg w. by apply Hscope. Qed.

Lemma preserves_run {A} (m : M A) w r w' :
  preserves view m → Some (m w) = Some (r, w') → view w' = view w.
Proof. intros Hm [= H]. specialize (Hm w). by rewrite H in Hm. Qed.

Lemma run_callback_view cb arg w r w' :
  run_callback cb arg w = Some (r, w') → view w' = view w.
Proof.
  destruct cb; cbn [run_callback].
  - destruct (createResultBeans arg); cbn; congruence.
  - apply preserves_run. unfold rejectWithData.
    apply preserves_bind; [apply preserves_lift|]. intros data.
    apply preserves_bind; [apply preserves_q_reject|].
    intros; apply preserves_ret.
  - destruct arg; try done. apply preserves_run.
    apply preserves_bind; [|intros; apply preserves_ret].
    unfold onSearchResultsReceived, disableLoadMore.
    destruct (length items =? 0)%nat; by apply preserves_assign.
  - apply preserves_run.
    apply preserves_bind; [|intros; apply preserves_ret].
    by apply preserves_assign.
  - apply preserves_run.
    apply preserves_bind; [|intros; apply preserves_ret].
    apply preserves_bind; [|intros]; by apply preserves_assign.
  - apply preserves_run.
    apply preserves_bind; [|intros; apply preserves_ret].
    apply preserves_bind; [|intros]; by apply preserves_assign.
Qed.

Lemma tick_view w w' : tick w = Some w' → view w' = view w.
Proof.
  rewrite unfold_tick. destruct (queue w) as [|[[h q] o] due]; [done|].
  set (w0 := set_queue (λ _, due) w).
  assert (view w0 = view w) as Hw0 by (destruct Hview as (_ & _ & Hq); apply Hq).
  assert (∀ cb v, (run_callback cb v w0 ≫= λ '(res, w1), Some (conclude q res w1).2) = Some w' →
                  view w' = view w) as Hcall.
  { intros cb v. destruct (run_callback cb v w0) as [[res w1]|] eqn:Hcb; [|done].
    cbn [mbind option_bind]. intros [= <-]. apply run_callback_view in Hcb.
    rewrite <- Hw0, <- Hcb. unfold conclude.
    destruct res; [apply preserves_resolve_with|apply preserves_settle]. }
  cbn [handler target].
  destruct h as [cb|cb|cb|], o as [v|v];
    try (exact (Hcall cb v));
    try (intros [= <-]; by rewrite preserves_settle).
  all: destruct (run_callback cb VUndefined w0) as [[res w1]|] eqn:Hcb; [|done];
    apply run_callback_view in Hcb; cbn [mbind option_bind];
    destruct res as [[]|e]; try done; intros [= <-]; rewrite preserves_settle; congruence.
Qed.

Lemma digest_view fuel w w' : digest fuel w = Some w' → view w' = view w.
Proof.
  revert w. induction fuel as [|fuel IH]; intros w.
  - cbv [digest]. destruct (queue w); [|done]. by intros [= <-].
  - rewrite unfold_digest. destruct (queue w); [by intros [= <-]|].
    destruct (tick w) as [w1|] eqn:Htick; [|done]. cbn [mbind option_bind].
    intros Hd%IH. apply tick_view in Htick. congruence.
Qed.

Lemma Digests_view w w' : Digests w w' → view w' = view w.
Proof. intros [fuel Hd]. by eapply digest_view. Qed.
End Frame.

(** ** What [scheduling] and the request log ignore *)

Lemma scheduling_ignores_futures : ignores_futures scheduling.
Proof. by repeat split. Qed.

Lemma scheduling_ignores_scope : ignores_scope scheduling.
Proof. intros g w Hg. unfold scheduling. cbn. by rewrite Hg. Qed.

Lemma requests_ignores_futures : ignores_futures requests.
Proof. by repeat split. Qed.

Lemma requests_ignores_scope : ignores_scope requests.
Proof. by intros g w Hg. Qed.

Lemma scheduling_eq w w' :
  scheduling w' = scheduling w →
  timers w' = timers w ∧ next_timer w' = next_timer w ∧ taskID w' = taskID w ∧
  next_task w' = next_task w ∧ delayedJob (ctrl w') = delayedJob (ctrl w).
Proof. unfold scheduling. intros [= -> -> -> -> ->]. done. Qed.

(** ** What the two actions do to timers, tasks and requests *)

Lemma cancelJobIfStillActive_kills w :
  ∃ tm tk,
    cancelJobIfStillActive w
    = (Normal tt,
       mkWorld tm (next_timer w) tk (next_task w) (promises w) (next_promise w)
               (queue w) (requests w) (set_delayedJob None (ctrl w))) ∧
    tm ⊆ timers w ∧
    (∀ dj id, delayedJob (ctrl w) = Some dj →
              taskID w !! self (handle dj) = Some id → tm !! id = None) ∧
    (owned w → tm = ∅).
Proof.
  unfold cancelJobIfStillActive. destruct w as [tm nt tk nk ps np q rs c].
  destruct c as [term [dj|] page results can more load err]; cbn.
  - destruct (tk !! self (handle dj)) as [id|] eqn:Hid.
    + rewrite (cancel_armed _ _ id) by exact Hid. cbn.
      eexists _, _. split; [reflexivity|]. split; [apply delete_subseteq|].
      split.
      * intros dj' id' [= <-] Hid'. cbn in Hid'.
        assert (id' = id) as -> by congruence. apply lookup_delete_eq.
      * intros Howned. apply map_empty. intros id'.
        destruct (decide (id = id')) as [<-|Hne]; [apply lookup_delete_eq|].
        cbn. rewrite lookup_delete_ne by done.
        destruct (tm !! id') as [entry|] eqn:Hentry; [|done].
        destruct (Howned id' entry Hentry) as (dj' & [= <-] & Hid').
        cbn in Hid'. congruence.
    + rewrite cancel_idle by exact Hid. cbn.
      eexists _, _. split; [reflexivity|]. split; [done|]. split.
      * intros dj' id' [= <-] Hid'. cbn in Hid'. congruence.
      * intros Howned. apply map_empty. intros id'. cbn.
        destruct (tm !! id') as [entry|] eqn:Hentry; [|done].
        destruct (Howned id' entry Hentry) as (dj' & [= <-] & Hid').
        cbn in Hid'. congruence.
  - eexists _, _. split; [reflexivity|]. split; [done|]. split; [done|].
    intros Howned. apply map_empty. intros id'. cbn.
    destruct (tm !! id') as [entry|] eqn:Hentry; [|done].
    by destruct (Howned id' entry Hentry) as (dj' & ? & _).
Qed.

Lemma START_PAGE_in_window : START_PAGE ≤ START_PAGE ≤ PAGE_LIMIT.
Proof. unfold START_PAGE, PAGE_LIMIT. lia. Qed.

(** The state that a search for a term that is not empty leaves behind. *)
Lemma conductSearch_effect w :
  formatted (searchTerm (ctrl w)) ≠ "" →
  ∃ tm tk ps,
    tm ⊆ timers w ∧
    (∀ dj id, delayedJob (ctrl w) = Some dj →
              taskID w !! self (handle dj) = Some id → tm !! id = None) ∧
    (owned w → tm = ∅) ∧
    ps !! next_promise w
    = Some (mkPromise Pending [mkReaction (Then OnSearchResultsReceived)
                                          (Pos.succ (next_promise w))]) ∧
    let task :=
      mkDelayedTask
        (factoryJob (searchGitHubRepos (formatted (searchTerm (ctrl w))) START_PAGE)
                    (next_promise w))
        TIME_DELAY (next_task w) in
    conductSearch w
    = (Normal tt,
       mkWorld (<[next_timer w := (job task, TIME_DELAY)]> tm)
               (Pos.succ (next_timer w))
               (<[next_task w := next_timer w]> (delete (next_task w) tk))
               (Pos.succ (next_task w))
               ps
               (Pos.succ (Pos.succ (Pos.succ (Pos.succ (next_promise w)))))
               (queue w) (requests w)
               (mkController (searchTerm (ctrl w))
                             (Some (mkStructuredDelayedTask task (next_promise w)))
                             START_PAGE [] false false (VBool true) VNull)).
Proof.
  intros Hterm.
  destruct (cancelJobIfStillActive_kills w) as (tm & tk & Hcancel & Hsub & Hkill & Hempty).
  destruct w as [tm0 nt tk0 nk ps np q rs c]. cbn in *.
  exists tm, tk. eexists. split; [done|]. split; [done|]. split; [done|].
  unfold conductSearch. cbn. rewrite Hcancel. cbn.
  rewrite decide_True by exact Hterm. cbn.
  rewrite searchByKeywordWithPaging_in_range by exact START_PAGE_in_window.
  split; [|exec; reflexivity]. cbn. by repeat step_map.
Qed.

(** The state that a fetch leaves behind, before any callback has run. *)
Lemma fetchMoreResults_effect w :
  ∃ tm tk ps,
    tm ⊆ timers w ∧
    (∀ dj id, delayedJob (ctrl w) = Some dj →
              taskID w !! self (handle dj) = Some id → tm !! id = None) ∧
    (owned w → tm = ∅) ∧
    let page := currentPage (ctrl w) + 1 in
    let term := formatted (searchTerm (ctrl w)) in
    let task :=
      mkDelayedTask (factoryJob (searchGitHubRepos term page) (next_promise w))
                    TIME_DELAY (next_task w) in
    fetchMoreResults w
    = (Normal tt,
       if (page >? PAGE_LIMIT) || (page <? START_PAGE) then
         mkWorld tm (next_timer w) tk (next_task w) ps
                 (Pos.succ (Pos.succ (Pos.succ (Pos.succ (next_promise w)))))
                 (queue w ++ [(mkReaction (Then OnSearchResultsReceived)
                                          (Pos.succ (next_promise w)),
                               Rejected (VObj [("message", VStr (paging_message term page))]))])
                 (requests w)
                 (mkController (searchTerm (ctrl w))
                               (Some (mkStructuredDelayedTask dummyDelayedTask (next_promise w)))
                               page (searchResults (ctrl w)) false true
                               (canLoadMore (ctrl w)) VNull)
       else
         mkWorld (<[next_timer w := (job task, TIME_DELAY)]> tm)
                 (Pos.succ (next_timer w))
                 (<[next_task w := next_timer w]> (delete (next_task w) tk))
                 (Pos.succ (next_task w))
                 ps
                 (Pos.succ (Pos.succ (Pos.succ (Pos.succ (next_promise w)))))
                 (queue w) (requests w)
                 (mkController (searchTerm (ctrl w))
                               (Some (mkStructuredDelayedTask task (next_promise w)))
                               page (searchResults (ctrl w)) false true
                               (canLoadMore (ctrl w)) VNull)).
Proof.
  destruct (cancelJobIfStillActive_kills w) as (tm & tk & Hcancel & Hsub & Hkill & Hempty).
  exists tm, tk.
  destruct w as [tm0 nt tk0 nk ps np q rs c]. cbn in *.
  destruct ((currentPage c + 1 >? PAGE_LIMIT) || (currentPage c + 1 <? START_PAGE))
    eqn:Hrange.
  - apply out_of_range_iff in Hrange. eexists.
    split; [done|]. split; [done|]. split; [done|].
    unfold fetchMoreResults. cbn. rewrite Hcancel. cbn.
    rewrite searchByKeywordWithPaging_out_of_range by exact Hrange.
    exec. reflexivity.
  - apply in_range_iff in Hrange. eexists.
    split; [done|]. split; [done|]. split; [done|].
    unfold fetchMoreResults. cbn. rewrite Hcancel. cbn.
    rewrite searchByKeywordWithPaging_in_range by exact Hrange.
    exec. reflexivity.
Qed.

(** ** What holds on every page that can be reached *)

Lemma owned_view w w' : scheduling w' = scheduling w → owned w → owned w'.
Proof.
  intros (Ht & _ & Hk & _ & Hj)%scheduling_eq Howned id entry.
  rewrite Ht, Hk, Hj. apply Howned.
Qed.

Lemma timers_in_window_view w w' :
  scheduling w' = scheduling w → timers_in_window w → timers_in_window w'.
Proof.
  intros (Ht & _)%scheduling_eq Hin id callback ms. rewrite Ht. apply Hin.
Qed.

Lemma timers_in_window_insert w tm id term page d :
  timers_in_window w → tm ⊆ timers w → START_PAGE ≤ page ≤ PAGE_LIMIT →
  ∀ id' callback ms,
    <[id := (factoryJob (searchGitHubRepos term page) d, TIME_DELAY)]> tm !! id'
    = Some (callback, ms) →
    ms = TIME_DELAY ∧
    ∃ term page d,
      callback = factoryJob (searchGitHubRepos term page) d ∧
      START_PAGE ≤ page ≤ PAGE_LIMIT.
Proof.
  intros Hin Hsub Hpage id' callback ms [[<- [= <- <-]]|[_ Hold]]%lookup_insert_Some.
  - split; [done|]. by eexists _, _, _.
  - eapply Hin, lookup_weaken; done.
Qed.

(** The three together: what every reachable page satisfies. *)
Lemma act_keeps e w w1 :
  act e w = Some w1 →
  owned w ∧ timers_in_window w ∧ requests_in_window w →
  owned w1 ∧ timers_in_window w1 ∧ requests_in_window w1.
Proof.
  intros Hact (Howned & Htimers & Hrequests). destruct e as [term| | |id|h o].
  - (* the user types *)
    cbn in Hact. injection Hact as <-. done.
  - (* a search *)
    cbn [act] in Hact. injection Hact as <-.
    destruct (decide (formatted (searchTerm (ctrl w)) = "")) as [Hempty|Hterm].
    + destruct (cancelJobIfStillActive_kills w) as (tm & tk & Hcancel & Hsub & _ & Hnone).
      unfold conductSearch. cbn. rewrite Hcancel. cbn.
      rewrite decide_False by (by intros ?). cbn.
      rewrite (Hnone Howned). split; [|split; [|done]].
      * intros id entry. cbn. by intros ?%lookup_empty_Some.
      * intros id callback ms. cbn. by intros ?%lookup_empty_Some.
    + destruct (conductSearch_effect w Hterm)
        as (tm & tk & ps & Hsub & _ & Hnone & _ & ->). cbn [snd].
      split; [|split; [|done]].
      * intros id entry. cbn. rewrite (Hnone Howned).
        intros [[<- _]|[_ ?%lookup_empty_Some]]%lookup_insert_Some; [|done].
        eexists. split; [reflexivity|]. cbn. apply lookup_insert_eq.
      * intros id callback ms Hid. cbn in Hid.
        eapply timers_in_window_insert;
          [exact Htimers|exact Hsub|exact START_PAGE_in_window|exact Hid].
  - (* a fetch *)
    cbn [act] in Hact. injection Hact as <-.
    destruct (fetchMoreResults_effect w)
      as (tm & tk & ps & Hsub & _ & Hnone & ->). cbn [snd].
    destruct ((currentPage (ctrl w) + 1 >? PAGE_LIMIT)
              || (currentPage (ctrl w) + 1 <? START_PAGE)) eqn:Hrange.
    + rewrite (Hnone Howned). split; [|split; [|done]].
      * intros id entry. cbn. by intros ?%lookup_empty_Some.
      * intros id callback ms. cbn. by intros ?%lookup_empty_Some.
    + apply in_range_iff in Hrange. split; [|split; [|done]].
      * intros id entry. cbn. rewrite (Hnone Howned).
        intros [[<- _]|[_ ?%lookup_empty_Some]]%lookup_insert_Some; [|done].
        eexists. split; [reflexivity|]. cbn. apply lookup_insert_eq.
      * intros id callback ms Hid. cbn in Hid.
        eapply timers_in_window_insert;
          [exact Htimers|exact Hsub|exact Hrange|exact Hid].
  - (* a timer fires *)
    cbn [act] in Hact.
    destruct (timers w !! id) as [[callback ms]|] eqn:Hid; [|done].
    cbn in Hact. injection Hact as <-.
    destruct (Htimers id callback ms Hid) as (_ & term & page & d & -> & Hpage).
    set (w0 := mkWorld (delete id (timers w)) (next_timer w) (taskID w) (next_task w)
                       (promises w) (next_promise w) (queue w) (requests w) (ctrl w)).
    assert (scheduling (run_job (factoryJob (searchGitHubRepos term page) d) w0).2
            = scheduling w0) as Hsched.
    { rewrite (factoryJob_view scheduling scheduling_ignores_futures).
      cbn [run_job]. exec. reflexivity. }
    assert (requests (run_job (factoryJob (searchGitHubRepos term page) d) w0).2
            = requests w ++ [(createGithubSearchURL term page, next_promise w)]) as Hlog.
    { rewrite (factoryJob_view requests requests_ignores_futures).
      cbn [run_job]. exec. reflexivity. }
    apply scheduling_eq in Hsched as (Ht & _ & Hk & _ & Hj).
    split; [|split].
    + intros id' entry. rewrite Ht, Hk, Hj. cbn.
      intros [_ Hold]%lookup_delete_Some. by eapply Howned.
    + intros id' callback ms'. rewrite Ht. cbn.
      intros [_ Hold]%lookup_delete_Some. by eapply Htimers.
    + intros url h'. rewrite Hlog.
      intros [Hold|Hnew%list_elem_of_singleton]%elem_of_app; [by eapply Hrequests|].
      injection Hnew as -> _. by eexists _, _.
  - (* a response arrives *)
    cbn [act] in Hact. destruct (awaited h w); [|done]. injection Hact as <-.
    pose proof (preserves_settle scheduling scheduling_ignores_futures h o w) as Hsched.
    pose proof (preserves_settle requests requests_ignores_futures h o w) as Hlog.
    split; [by eapply owned_view|]. split; [by eapply timers_in_window_view|].
    intros url h'. rewrite Hlog. apply Hrequests.
Qed.

Lemma Step_keeps e w w' :
  Step w e w' →
  owned w ∧ timers_in_window w ∧ requests_in_window w →
  owned w' ∧ timers_in_window w' ∧ requests_in_window w'.
Proof.
  intros (w1 & Hact & Hdigest) Hinv.
  destruct (act_keeps e w w1 Hact Hinv) as (Howned & Htimers & Hrequests).
  pose proof (Digests_view scheduling scheduling_ignores_futures
                scheduling_ignores_scope w1 w' Hdigest) as Hsched.
  pose proof (Digests_view requests requests_ignores_futures
                requests_ignores_scope w1 w' Hdigest) as Hlog.
  split; [by eapply owned_view|]. split; [by eapply timers_in_window_view|].
  intros url h. rewrite Hlog. apply Hrequests.
Qed.

Lemma Run_keeps es w w' :
  Run w es w' →
  owned w ∧ timers_in_window w ∧ requests_in_window w →
  owned w' ∧ timers_in_window w' ∧ requests_in_window w'.
Proof.
  induction 1 as [w|w e w1 es w2 Hstep _ IH]; [done|].
  intros Hinv. eapply IH, Step_keeps; done.
Qed.

Lemma init_keeps : owned init ∧ timers_in_window init ∧ requests_in_window init.
Proof.
  split; [|split].
  - intros id entry. cbn. by intros ?%lookup_empty_Some.
  - intros id callback ms. cbn. by intros ?%lookup_empty_Some.
  - intros url h. cbn. by intros ?%elem_of_nil.
Qed.

Lemma owned_size w : owned w → (size (timers w) ≤ 1)%nat.
Proof.
  intros Howned. destruct (map_choose_or_empty (timers w)) as [(id & entry & Hid)|Hempty].
  - assert (timers w = {[id := entry]}) as ->; [|rewrite map_size_singleton; lia].
    apply map_eq. intros id'. destruct (decide (id = id')) as [<-|Hne].
    + by rewrite lookup_singleton_eq.
    + rewrite lookup_singleton_ne by done.
      destruct (timers w !! id') as [entry'|] eqn:Hid'; [|done].
      destruct (Howned id entry Hid) as (dj & Hdj & Hk).
      destruct (Howned id' entry' Hid') as (dj' & Hdj' & Hk'). congruence.
  - rewrite Hempty, map_size_empty. lia.
Qed.

(** X5.  The callbacks only write the futures and the scope: running all
    that are due leaves the timers, the tasks, the job that the controller
    holds and the log of requests as they are.  No callback arms or cancels
    a timer, and none sends a request. *)
Theorem callbacks_keep_scheduling (w w' : World) :
  Digests w w' → scheduling w' = scheduling w ∧ requests w' = requests w.
Proof.
  intros Hdigest. split.
  - exact (Digests_view scheduling scheduling_ignores_futures
             scheduling_ignores_scope w w' Hdigest).
  - exact (Digests_view requests requests_ignores_futures
             requests_ignores_scope w w' Hdigest).
Qed.

Lemma callbacks_keep_scheduling_witness :
  let w0 := default init (run 8 [UserTypes "gecko"; UserSearches; TimerFires 1] init) in
  let w := (settle 5 (Fulfilled (ok_response [VObj gecko])) w0).2 in
  ∃ w',
    queue w ≠ [] ∧ Digests w w' ∧
    scheduling w' = scheduling w ∧ requests w' = requests w.
Proof.
  intros w0 w.
  assert (∃ w', Digests w w') as [w' Hdigest]
    by (eexists; exists 8%nat; vm_compute; reflexivity).
  exists w'. split; [vm_compute; discriminate|]. split; [exact Hdigest|].
  exact (callbacks_keep_scheduling w w' Hdigest).
Defined.

(** X6.  Debounce.  However the user types, searches and loads more, and
    whenever timers fire and responses arrive, at most one timer is pending,
    and it is the timer of the job that the controller holds: starting a
    job cancels the timer of the one before. *)
Theorem at_most_one_timer (es : list Event) (w : World) :
  Run init es w →
  (size (timers w) ≤ 1)%nat ∧
  ∀ id entry,
    timers w !! id = Some entry →
    ∃ dj, delayedJob (ctrl w) = Some dj ∧ taskID w !! self (handle dj) = Some id.
Proof.
  intros Hrun. pose proof (Run_keeps _ _ _ Hrun init_keeps) as (Howned & _).
  split; [by apply owned_size|exact Howned].
Qed.

Lemma at_most_one_timer_witness :
  ∃ w,
    Run init [UserTypes "g"; UserSearches; UserTypes "ge"; UserSearches] w ∧
    (size (timers w) ≤ 1)%nat ∧
    ∀ id entry,
      timers w !! id = Some entry →
      ∃ dj, delayedJob (ctrl w) = Some dj ∧ taskID w !! self (handle dj) = Some id.
Proof.
  assert (∃ w, Run init [UserTypes "g"; UserSearches; UserTypes "ge"; UserSearches] w)
    as [w Hrun] by (eexists; apply (run_Run 8); vm_compute; reflexivity).
  exists w. split; [exact Hrun|]. exact (at_most_one_timer _ w Hrun).
Defined.


(** X7.  The window.  Whatever happens, every request that has gone out is
    for a page between [START_PAGE] and [PAGE_LIMIT], and so is the request
    of every timer that is pending, which fires after [TIME_DELAY]. *)
Theorem requests_stay_in_window (es : list Event) (w : World) :
  Run init es w →
  (∀ url h,
     (url, h) ∈ requests w →
     ∃ term page,
       url = createGithubSearchURL term page ∧ START_PAGE ≤ page ≤ PAGE_LIMIT) ∧
  (∀ id callback ms,
     timers w !! id = Some (callback, ms) →
     ms = TIME_DELAY ∧
     ∃ term page d,
       callback = factoryJob (searchGitHubRepos term page) d ∧
       START_PAGE ≤ page ≤ PAGE_LIMIT).
Proof.
  intros Hrun. pose proof (Run_keeps _ _ _ Hrun init_keeps) as (_ & Htimers & Hrequests).
  split; [exact Hrequests|exact Htimers].
Qed.

Lemma requests_stay_in_window_witness :
  ∃ w,
    Run first_page_shown [UserLoadsMore; TimerFires 2] w ∧
    ∀ url h,
      (url, h) ∈ requests w →
      ∃ term page,
        url = createGithubSearchURL term page ∧ START_PAGE ≤ page ≤ PAGE_LIMIT.
Proof.
  assert (∃ w,
            Run init [UserTypes "gecko"; UserSearches; TimerFires 1;
                      ResponseArrives 5 (Fulfilled (ok_response [VObj gecko]));
                      UserLoadsMore; TimerFires 2] w ∧
            Run first_page_shown [UserLoadsMore; TimerFires 2] w)
    as (w & Hrun & Hrest).
  { eexists. split; apply (run_Run 8); vm_compute; reflexivity. }
  exists w. split; [exact Hrest|]. exact (proj1 (requests_stay_in_window _ w Hrun)).
Defined.


(** ** DelayedTask and the factory, further *)

(** X8.  Scheduling an idle task arms one timer for its job; cancelling it
    before the timer fires puts the browser's timers and the task back as
    they were, and the timer can no longer fire: the job never runs. *)
Theorem schedule_then_cancel (t : DelayedTask) (w : World) :
  taskID w !! self t = None →
  timers w !! next_timer w = None →
  ∃ w1 w2,
    schedule t w = (Normal tt, w1) ∧
    timers w1 = <[next_timer w := (job t, delay t)]> (timers w) ∧
    cancel t w1 = (Normal tt, w2) ∧
    timers w2 = timers w ∧
    taskID w2 = taskID w ∧
    act (TimerFires (next_timer w)) w2 = None.
Proof.
  intros Hidle Hfresh. eexists _, _.
  split; [by apply schedule_idle|]. split; [reflexivity|].
  split; [apply cancel_armed; cbn; apply lookup_insert_eq|]. cbn.
  rewrite delete_insert_id by exact Hfresh.
  rewrite delete_insert_id by exact Hidle.
  split; [done|]. split; [done|]. by rewrite Hfresh.
Qed.

Lemma schedule_then_cancel_witness :
  taskID init !! self dummyDelayedTask = None ∧
  timers init !! next_timer init = None ∧
  ∃ w1 w2,
    schedule dummyDelayedTask init = (Normal tt, w1) ∧
    timers w1 = <[next_timer init := (noOpFunction, 0)]> (timers init) ∧
    cancel dummyDelayedTask w1 = (Normal tt, w2) ∧
    timers w2 = timers init ∧
    taskID w2 = taskID init ∧
    act (TimerFires (next_timer init)) w2 = None.
Proof.
  split; [reflexivity|]. split; [reflexivity|].
  exact (schedule_then_cancel dummyDelayedTask init eq_refl eq_refl).
Defined.

Lemma resolve_with_plain p v w :
  plain v → resolve_with p v w = settle p (Fulfilled v) w.
Proof. intros Hplain. destruct v; try done. by destruct (Hplain p0). Qed.

(** X9.  The future of [create] takes the job's result.  If the job returns
    a value that is not a future, the future is fulfilled with that value
    once the timer has fired; if it returns a future that nothing else
    hangs on and that is later fulfilled with a value, the future is
    fulfilled with that value. *)
Theorem create_resolves (w : World) (ms : Z) (v : value) :
  queue w = [] →
  plain v →
  (∃ sdt w1 w2 w3,
     create (otherJob (Normal v)) ms w = (Normal sdt, w1) ∧
     schedule (handle sdt) w1 = (Normal tt, w2) ∧
     Step w2 (TimerFires (next_timer w)) w3 ∧
     fulfilled_with w3 (promise sdt) v) ∧
  (∀ p,
     promises w !! p = Some (mkPromise Pending []) →
     (p < next_promise w)%positive →
     ∃ sdt w1 w2 w3 w4,
       create (otherJob (Normal (VPromise p))) ms w = (Normal sdt, w1) ∧
       schedule (handle sdt) w1 = (Normal tt, w2) ∧
       Step w2 (TimerFires (next_timer w)) w3 ∧
       promises w3 !! promise sdt = Some (mkPromise Following []) ∧
       Digests (deferred_resolve p v w3).2 w4 ∧
       fulfilled_with w4 (promise sdt) v).
Proof.
  intros Hq Hplain. destruct w as [tm nt tk nk ps np q rs c]. cbn in Hq. subst q.
  split.
  - eexists _, _, _, _. split; [apply create_eq|].
    split; [exec; reflexivity|]. split.
    + eexists. split.
      * cbn. exec. rewrite resolve_with_plain by exact Hplain. exec. reflexivity.
      * exists 1%nat. exec. reflexivity.
    + eexists. cbn. by rewrite lookup_insert_eq.
  - intros p Hp Hlt. cbn in Hp, Hlt.
    eexists _, _, _, _, _. split; [apply create_eq|].
    split; [exec; reflexivity|]. split.
    { eexists. split; [cbn; exec; rewrite Hp; exec; reflexivity|].
      by exists 0%nat. }
    split; [cbn; by repeat step_map|].
    split.
    { exists 2%nat. exec. rewrite resolve_with_plain by exact Hplain. exec.
      reflexivity. }
    eexists. cbn. by rewrite lookup_insert_eq.
Qed.

Lemma create_resolves_witness :
  queue init = [] ∧ plain (VNum 7) ∧
  ∃ sdt w1 w2 w3,
    create (otherJob (Normal (VNum 7))) 0 init = (Normal sdt, w1) ∧
    schedule (handle sdt) w1 = (Normal tt, w2) ∧
    Step w2 (TimerFires (next_timer init)) w3 ∧
    fulfilled_with w3 (promise sdt) (VNum 7).
Proof.
  assert (plain (VNum 7)) as Hplain by (by intros p).
  split; [reflexivity|]. split; [exact Hplain|].
  exact (proj1 (create_resolves init 0 (VNum 7) eq_refl Hplain)).
Defined.

(** X10.  A job that throws [undefined] or [null] leaves the future of
    [create] pending: reading [data] off what was thrown throws inside the
    [catch], so [deferred.reject] is never reached and the [TypeError]
    escapes the timer's callback. *)
Theorem create_never_settles (w : World) (ms : Z) (e : value) :
  nullish e = true →
  ∃ sdt w1 w2 w3,
    create (otherJob (Throw e)) ms w = (Normal sdt, w1) ∧
    schedule (handle sdt) w1 = (Normal tt, w2) ∧
    run_job (job (handle sdt)) (set_timers (delete (next_timer w)) w2)
    = (Throw TypeError, w3) ∧
    act (TimerFires (next_timer w)) w2 = Some w3 ∧
    promises w3 !! promise sdt = Some (mkPromise Pending []) ∧
    queue w3 = queue w.
Proof.
  intros Hnull. eexists _, _, _, _. split; [apply create_eq|].
  split; [exec; reflexivity|].
  assert (get_prop e "data" = Throw TypeError) as Hdata by (by destruct e).
  split; [cbn; rewrite Hdata; reflexivity|].
  split; [cbn; exec; rewrite Hdata; reflexivity|].
  cbn. by rewrite lookup_insert_eq.
Qed.

Lemma create_never_settles_witness :
  nullish VNull = true ∧
  ∃ sdt w1 w2 w3,
    create (otherJob (Throw VNull)) 0 init = (Normal sdt, w1) ∧
    schedule (handle sdt) w1 = (Normal tt, w2) ∧
    act (TimerFires (next_timer init)) w2 = Some w3 ∧
    promises w3 !! promise sdt = Some (mkPromise Pending []).
Proof.
  split; [reflexivity|].
  destruct (create_never_settles init 0 VNull eq_refl)
    as (sdt & w1 & w2 & w3 & H1 & H2 & _ & H3 & H4 & _).
  exists sdt, w1, w2, w3. auto.
Defined.

(** ** GithubService, further *)

(** X11.  Inside the window [searchByKeywordWithPaging] sends nothing itself:
    it arms one timer with the debounce delay and returns a pending future.
    The request goes out when that timer fires, to the address made of the
    keyword and the page.  If the caller cancels the handle first, the
    timer cannot fire any more, nothing has been requested and the future
    stays pending. *)
Theorem searchByKeywordWithPaging_debounces (keyword : string) (pageNumber : Z) (w : World) :
  START_PAGE ≤ pageNumber ≤ PAGE_LIMIT →
  ∃ sdt w1,
    searchByKeywordWithPaging keyword pageNumber w = (Normal sdt, w1) ∧
    requests w1 = requests w ∧
    timers w1 = <[next_timer w := (job (handle sdt), TIME_DELAY)]> (timers w) ∧
    promises w1 !! promise sdt = Some (mkPromise Pending []) ∧
    (∃ w2,
       act (TimerFires (next_timer w)) w1 = Some w2 ∧
       requests w2
       = requests w ++ [(createGithubSearchURL keyword pageNumber, Pos.succ (next_promise w))] ∧
       timers w2 !! next_timer w = None) ∧
    (∃ w3,
       cancel (handle sdt) w1 = (Normal tt, w3) ∧
       act (TimerFires (next_timer w)) w3 = None ∧
       requests w3 = requests w ∧
       promises w3 !! promise sdt = Some (mkPromise Pending [])).
Proof.
  intros Hin. eexists _, _.
  split; [by apply searchByKeywordWithPaging_in_range|].
  split; [reflexivity|]. split; [reflexivity|].
  split; [cbn; apply lookup_insert_eq|]. split.
  - eexists. split; [cbn; exec; reflexivity|]. split; [reflexivity|].
    cbn. apply lookup_delete_eq.
  - eexists. split; [apply cancel_armed; cbn; apply lookup_insert_eq|].
    cbn. rewrite lookup_delete_eq. split; [done|]. split; [done|].
    apply lookup_insert_eq.
Qed.

Lemma searchByKeywordWithPaging_debounces_witness :
  START_PAGE ≤ 3 ≤ PAGE_LIMIT ∧
  ∃ sdt w1 w2,
    searchByKeywordWithPaging "gecko" 3 init = (Normal sdt, w1) ∧
    requests w1 = [] ∧
    act (TimerFires 1) w1 = Some w2 ∧
    requests w2
    = [("https://api.github.com/legacy/repos/search/gecko?start_page=3", 2%positive)].
Proof.
  assert (START_PAGE ≤ 3 ≤ PAGE_LIMIT) as Hin by (unfold START_PAGE, PAGE_LIMIT; lia).
  split; [exact Hin|].
  destruct (searchByKeywordWithPaging_debounces "gecko" 3 init Hin)
    as (sdt & w1 & H1 & H2 & _ & _ & (w2 & H3 & H4 & _) & _).
  exists sdt, w1, w2. auto.
Defined.

(** ** The page number *)

Lemma page_ignores_futures : ignores_futures (λ w, currentPage (ctrl w)).
Proof. split; [|split]; by intros ? []. Qed.

Lemma run_callback_page cb arg w r w' :
  run_callback cb arg w = Some (r, w') →
  currentPage (ctrl w') ≤ currentPage (ctrl w).
Proof.
  destruct cb; cbn [run_callback].
  - destruct (createResultBeans arg); cbn; [|done]. intros [= _ <-]. lia.
  - intros H. apply (preserves_run (λ w, currentPage (ctrl w))) in H; [lia|].
    unfold rejectWithData.
    apply preserves_bind; [apply preserves_lift|]. intros data.
    apply preserves_bind; [by apply preserves_q_reject, page_ignores_futures|].
    intros; apply preserves_ret.
  - destruct arg; try done. unfold onSearchResultsReceived, disableLoadMore.
    destruct w as [tm nt tk nk ps np q rs c]. cbn.
    destruct (length items =? 0)%nat; intros [= _ <-]; cbn; lia.
  - destruct w. cbn. intros [= _ <-]. cbn. lia.
  - destruct w. cbn. intros [= _ <-]. cbn. lia.
  - destruct w. cbn. intros [= _ <-]. cbn. lia.
Qed.

Lemma tick_page w w' :
  tick w = Some w' → currentPage (ctrl w') ≤ currentPage (ctrl w).
Proof.
  pose proof page_ignores_futures as Hview.
  set (view := λ w : World, currentPage (ctrl w)) in *.
  change (tick w = Some w' → view w' ≤ view w).
  rewrite unfold_tick. destruct (queue w) as [|[[h q] o] due]; [done|].
  set (w0 := set_queue (λ _, due) w).
  assert (view w0 = view w) as Hw0 by (destruct Hview as (_ & _ & Hq); apply Hq).
  assert (∀ cb v, (run_callback cb v w0 ≫= λ '(res, w1), Some (conclude q res w1).2) = Some w' →
                  view w' ≤ view w) as Hcall.
  { intros cb v. destruct (run_callback cb v w0) as [[res w1]|] eqn:Hcb; [|done].
    cbn [mbind option_bind]. intros [= <-]. apply run_callback_page in Hcb.
    rewrite <- Hw0. etrans; [|exact Hcb]. unfold conclude.
    destruct res;
      [rewrite (preserves_resolve_with view Hview)|rewrite (preserves_settle view Hview)];
      reflexivity. }
  cbn [handler target].
  destruct h as [cb|cb|cb|], o as [v|v];
    try (exact (Hcall cb v));
    try (intros [= <-]; rewrite (preserves_settle view Hview); lia).
  all: destruct (run_callback cb VUndefined w0) as [[res w1]|] eqn:Hcb; [|done];
    apply run_callback_page in Hcb; cbn [mbind option_bind];
    destruct res as [[]|e]; try done; intros [= <-];
    rewrite (preserves_settle view Hview); fold (view w1) (view w0) in Hcb; lia.
Qed.

Lemma digest_page fuel w w' :
  digest fuel w = Some w' → currentPage (ctrl w') ≤ currentPage (ctrl w).
Proof.
  revert w. induction fuel as [|fuel IH]; intros w.
  - cbv [digest]. destruct (queue w); [|done]. intros [= <-]. lia.
  - rewrite unfold_digest. destruct (queue w); [intros [= <-]; lia|].
    destruct (tick w) as [w1|] eqn:Htick; [|done]. cbn [mbind option_bind].
    intros Hd%IH. apply tick_page in Htick. lia.
Qed.

(** A fetch for a page outside the window, from the click to the state in
    which all its callbacks have run. *)
Lemma fetchMoreResults_outside_window w :
  queue w = [] →
  currentPage (ctrl w) + 1 < START_PAGE ∨ currentPage (ctrl w) + 1 > PAGE_LIMIT →
  ∃ w',
    Step w UserLoadsMore w' ∧
    ctrl w'
    = mkController
        (searchTerm (ctrl w))
        (Some (mkStructuredDelayedTask dummyDelayedTask (next_promise w)))
        (currentPage (ctrl w)) (searchResults (ctrl w)) true false
        (canLoadMore (ctrl w))
        (VObj [("message",
                VStr (paging_message (formatted (searchTerm (ctrl w)))
                                     (currentPage (ctrl w) + 1)))]) ∧
    timers w' ⊆ timers w ∧
    requests w' = requests w.
Proof.
  intros Hq Hout.
  destruct (cancelJobIfStillActive_eq w) as (tm & tk & Hcancel & Hsub & _).
  destruct w as [tm0 nt tk0 nk ps np q rs c]. cbn in Hq, Hcancel, Hout, Hsub. subst q.
  eexists. split.
  - eexists. split.
    + cbn [act]. unfold fetchMoreResults. cbn. rewrite Hcancel. cbn.
      rewrite searchByKeywordWithPaging_out_of_range by exact Hout.
      exec. reflexivity.
    + exists 3%nat. exec. reflexivity.
  - cbn. split; [|done]. f_equal. lia.
Qed.

Lemma ctrl_ignores_futures : ignores_futures ctrl.
Proof. split; [|split]; by intros ? []. Qed.

(** No job touches the controller. *)
Lemma run_job_ctrl j w : ctrl (run_job j w).2 = ctrl w.
Proof.
  revert w. induction j as [|term page|j IH d|does]; intros w.
  - done.
  - destruct w as [tm nt tk nk ps np q rs c]. cbn [run_job]. exec. reflexivity.
  - by rewrite (factoryJob_view ctrl ctrl_ignores_futures).
  - cbn. by destruct does.
Qed.

Lemma conductSearch_page w : currentPage (ctrl (conductSearch w).2) = START_PAGE.
Proof.
  destruct (decide (formatted (searchTerm (ctrl w)) = "")) as [Hempty|Hterm].
  - destruct (cancelJobIfStillActive_eq w) as (tm & tk & Hcancel & _).
    unfold conductSearch. cbn. rewrite Hcancel. cbn.
    by rewrite decide_False by (by intros ?).
  - by destruct (conductSearch_effect w Hterm) as (tm & tk & ps & _ & _ & _ & _ & ->).
Qed.

Lemma Step_page e w w' :
  Step w e w' →
  queue w = [] ∧ currentPage (ctrl w) ≤ PAGE_LIMIT →
  queue w' = [] ∧ currentPage (ctrl w') ≤ PAGE_LIMIT.
Proof.
  intros Hstep [Hq Hpage]. split; [by eapply Step_quiet|].
  pose proof Hstep as (w1 & Hact & fuel & Hdigest).
  apply digest_page in Hdigest.
  enough (currentPage (ctrl w1) ≤ PAGE_LIMIT ∨ currentPage (ctrl w') ≤ PAGE_LIMIT)
    as [?|?] by lia.
  destruct e as [term| | |id|h o]; cbn [act] in Hact.
  - injection Hact as <-. left. by destruct w.
  - injection Hact as <-. left. rewrite conductSearch_page.
    unfold START_PAGE, PAGE_LIMIT. lia.
  - injection Hact as <-.
    destruct (decide (currentPage (ctrl w) + 1 ≤ PAGE_LIMIT)) as [Hin|Hout].
    + left. destruct (fetchMoreResults_effect w) as (tm & tk & ps & _ & _ & _ & ->).
      cbn [snd]. by destruct (_ || _).
    + right.
      destruct (fetchMoreResults_outside_window w Hq) as (w'' & Hstep' & Hc & _); [lia|].
      by rewrite (Step_functional _ _ _ _ Hstep Hstep'), Hc.
  - destruct (timers w !! id) as [[callback ms]|]; [|done].
    cbn in Hact. injection Hact as <-. left. by rewrite run_job_ctrl.
  - destruct (awaited h w); [|done]. injection Hact as <-. left.
    by rewrite (preserves_settle ctrl ctrl_ignores_futures).
Qed.

Lemma Run_page es w w' :
  Run w es w' →
  queue w = [] ∧ currentPage (ctrl w) ≤ PAGE_LIMIT →
  queue w' = [] ∧ currentPage (ctrl w') ≤ PAGE_LIMIT.
Proof.
  induction 1 as [w|w e w1 es w2 Hstep _ IH]; [done|].
  intros Hinv. eapply IH, Step_page; done.
Qed.

(** X12.  The page number never passes the limit: on every page that can be
    reached, once the callbacks have run, [currentPage] is at most
    [PAGE_LIMIT]. *)
Theorem currentPage_at_most_limit (es : list Event) (w : World) :
  Run init es w → currentPage (ctrl w) ≤ PAGE_LIMIT.
Proof.
  intros Hrun. eapply Run_page; [exact Hrun|].
  split; [done|]. cbn. unfold START_PAGE, PAGE_LIMIT. lia.
Qed.

Lemma currentPage_at_most_limit_witness :
  ∃ w,
    Run init [UserTypes "gecko"; UserSearches; UserLoadsMore; UserLoadsMore] w ∧
    currentPage (ctrl w) ≤ PAGE_LIMIT.
Proof.
  assert (∃ w, Run init [UserTypes "gecko"; UserSearches; UserLoadsMore; UserLoadsMore] w)
    as [w Hrun] by (eexists; apply (run_Run 8); vm_compute; reflexivity).
  exists w. split; [exact Hrun|]. exact (currentPage_at_most_limit _ w Hrun).
Defined.


(** ** SearchController: what a call leaves behind *)

(** X13.  A search for a term that is not empty starts over: page
    [START_PAGE], an empty list, no error, [canLoadMore] on, the request
    gate closed.  The timer of the job held before is gone, one timer is
    armed for the first page of the term, no request has gone out yet, and
    loading more is not allowed. *)
Theorem conductSearch_starts (w : World) :
  formatted (searchTerm (ctrl w)) ≠ "" →
  ∃ w' sdt,
    conductSearch w = (Normal tt, w') ∧
    ctrl w'
    = mkController (searchTerm (ctrl w)) (Some sdt) START_PAGE [] false false
                   (VBool true) VNull ∧
    timers w' !! next_timer w
    = Some (factoryJob (searchGitHubRepos (formatted (searchTerm (ctrl w))) START_PAGE)
                       (promise sdt),
            TIME_DELAY) ∧
    (∀ id, id ≠ next_timer w →
           timers w' !! id = None ∨
           timers w' !! id = timers w !! id ∧
           ∀ dj, delayedJob (ctrl w) = Some dj → taskID w !! self (handle dj) ≠ Some id) ∧
    requests w' = requests w ∧
    isAllowedToLoadMore w' = false.
Proof.
  intros Hterm.
  destruct (conductSearch_effect w Hterm)
    as (tm & tk & ps & Hsub & Hkill & _ & _ & Hrun).
  eexists _, _. split; [exact Hrun|]. split; [reflexivity|].
  split; [cbn; apply lookup_insert_eq|].
  split; [|split; [done|unfold isAllowedToLoadMore; cbn; by rewrite !andb_false_r]].
  intros id Hid. cbn. rewrite lookup_insert_ne by done.
  destruct (tm !! id) as [entry|] eqn:Hentry; [right|by left].
  split.
  - symmetry. by eapply lookup_weaken.
  - intros dj Hdj Hheld. specialize (Hkill dj id Hdj Hheld). congruence.
Qed.

Lemma conductSearch_starts_witness :
  formatted (searchTerm (ctrl (set_ctrl (set_searchTerm "foo bar") first_page_shown))) ≠ "" ∧
  ∃ w',
    conductSearch (set_ctrl (set_searchTerm "foo bar") first_page_shown) = (Normal tt, w') ∧
    searchResults (ctrl w') = [] ∧
    canInitiateRequests (ctrl w') = false ∧
    isAllowedToLoadMore w' = false.
Proof.
  assert (formatted (searchTerm (ctrl (set_ctrl (set_searchTerm "foo bar") first_page_shown)))
          ≠ "") as Hterm by (vm_compute; discriminate).
  split; [exact Hterm|].
  destruct (conductSearch_starts _ Hterm) as (w' & sdt & Hrun & Hc & _ & _ & _ & Hallowed).
  exists w'. rewrite Hc. auto.
Defined.

(** X14.  Once the search field holds a string, [fetchMoreResults] checks
    nothing before it acts.  Whatever the term written and the rest of the
    state (an empty term, the gate closed, the last page shown), it returns
    normally with the page number incremented, the error cleared, the list
    and [canLoadMore] as they were, and the gate closed; no request has
    gone out yet and loading more is not allowed. *)
Theorem fetchMoreResults_unguarded (term : string) (w : World) :
  ∃ w' sdt,
    fetchMoreResults (set_ctrl (set_searchTerm term) w) = (Normal tt, w') ∧
    ctrl w'
    = mkController term (Some sdt) (currentPage (ctrl w) + 1)
                   (searchResults (ctrl w)) false true (canLoadMore (ctrl w)) VNull ∧
    requests w' = requests w ∧
    isAllowedToLoadMore w' = false.
Proof.
  destruct (fetchMoreResults_effect (set_ctrl (set_searchTerm term) w))
    as (tm & tk & ps & _ & _ & _ & Hrun).
  cbv zeta in Hrun. rewrite Hrun. destruct w as [tm0 nt tk0 nk ps0 np q rs c].
  cbn [set_ctrl set_searchTerm ctrl searchTerm currentPage searchResults
       canLoadMore requests].
  destruct (_ || _); eexists _, _; (split; [reflexivity|]);
    (split; [reflexivity|]); (split; [reflexivity|]);
    unfold isAllowedToLoadMore; cbn; by rewrite andb_false_r.
Qed.

(** ** SearchController: a search from the click to the list *)

(** X15.  On a page where no callback is due, the user searches for a term
    that is not empty, the timer fires and the response arrives with its
    records.  One request has gone out, for the first page of the term;
    the list is the beans of the records, the page is [START_PAGE], there
    is no error and the gate is open again.  Loading more is allowed
    exactly when the response had records. *)
Theorem conductSearch_success (w : World) (response : value) (raws : list (list (string * value))) :
  queue w = [] →
  formatted (searchTerm (ctrl w)) ≠ "" →
  carries response (map VObj raws) →
  ∃ w1 w2 h w3,
    Step w UserSearches w1 ∧
    Step w1 (TimerFires (next_timer w)) w2 ∧
    requests w2
    = requests w ++ [(createGithubSearchURL (formatted (searchTerm (ctrl w))) START_PAGE, h)] ∧
    Step w2 (ResponseArrives h (Fulfilled response)) w3 ∧
    searchResults (ctrl w3) = map SearchResult raws ∧
    currentPage (ctrl w3) = START_PAGE ∧
    error (ctrl w3) = VNull ∧
    canInitiateRequests (ctrl w3) = true ∧
    fetchingMoreResults (ctrl w3) = false ∧
    isAllowedToLoadMore w3 = bool_decide (raws ≠ []).
Proof.
  intros Hq Hterm Hcarries%createResultBeans_objects.
  destruct (cancelJobIfStillActive_eq w) as (tm & tk & Hcancel & _ & _).
  destruct w as [tm0 nt tk0 nk ps np q rs c]. cbn in Hq, Hcancel, Hterm. subst q.
  destruct raws as [|raw raws].
  all: eexists _, _, _, _.
  all: split;
    [eexists; split;
     [cbn [act]; unfold conductSearch; cbn; rewrite Hcancel; cbn;
      rewrite decide_True by exact Hterm; cbn;
      rewrite searchByKeywordWithPaging_in_range by exact START_PAGE_in_window;
      exec; reflexivity
     |by exists 0%nat]|].
  all: split; [eexists; split; [cbn; exec; reflexivity|by exists 0%nat]|].
  all: split; [reflexivity|].
  all: split;
    [eexists; split;
     [cbn [act]; erewrite awaited_last;
      [reflexivity|reflexivity|cbn; repeat step_map; reflexivity]
     |exists 7%nat; exec; rewrite Hcarries; exec; reflexivity]|].
  all: unfold isAllowedToLoadMore; cbn; repeat split.
  by rewrite bool_decide_true by exact Hterm.
Qed.

Lemma conductSearch_success_witness :
  let w := set_ctrl (set_searchTerm "gecko") init in
  queue w = [] ∧
  formatted (searchTerm (ctrl w)) ≠ "" ∧
  carries (ok_response [VObj gecko]) (map VObj [gecko]) ∧
  ∃ w1 w2 h w3,
    Step w UserSearches w1 ∧
    Step w1 (TimerFires (next_timer w)) w2 ∧
    Step w2 (ResponseArrives h (Fulfilled (ok_response [VObj gecko]))) w3 ∧
    searchResults (ctrl w3) = [SearchResult gecko] ∧
    isAllowedToLoadMore w3 = true.
Proof.
  intros w.
  assert (formatted (searchTerm (ctrl w)) ≠ "") as Hterm by (vm_compute; discriminate).
  assert (carries (ok_response [VObj gecko]) (map VObj [gecko])) as Hcarries
    by (eexists; split; reflexivity).
  split; [reflexivity|]. split; [exact Hterm|]. split; [exact Hcarries|].
  destruct (conductSearch_success w _ [gecko] eq_refl Hterm Hcarries)
    as (w1 & w2 & h & w3 & H1 & H2 & _ & H3 & H4 & _ & _ & _ & _ & H5).
  exists w1, w2, h, w3. auto.
Defined.

(** X16.  The same search when the job fails with [r] (the request fails
    with the response [r], or [createResultBeans] throws [r] on its
    response): [error] is the payload of [r], the list is empty, the gate
    is open again and loading more is not allowed.  The page stays
    [START_PAGE]: unlike a fetch, a search does not step the page back. *)
Theorem conductSearch_failure (w : World) (o : Outcome) (r : value) :
  queue w = [] →
  formatted (searchTerm (ctrl w)) ≠ "" →
  fails_with o r →
  ∃ w1 w2 h w3,
    Step w UserSearches w1 ∧
    Step w1 (TimerFires (next_timer w)) w2 ∧
    requests w2
    = requests w ++ [(createGithubSearchURL (formatted (searchTerm (ctrl w))) START_PAGE, h)] ∧
    Step w2 (ResponseArrives h o) w3 ∧
    error (ctrl w3) = payload r ∧
    searchResults (ctrl w3) = [] ∧
    currentPage (ctrl w3) = START_PAGE ∧
    canInitiateRequests (ctrl w3) = true ∧
    fetchingMoreResults (ctrl w3) = false ∧
    isAllowedToLoadMore w3 = false.
Proof.
  intros Hq Hterm Hfails. unfold payload.
  destruct (cancelJobIfStillActive_eq w) as (tm & tk & Hcancel & _ & _).
  destruct w as [tm0 nt tk0 nk ps np q rs c]. cbn in Hq, Hcancel, Hterm. subst q.
  destruct (get_prop r "data") as [data|e] eqn:Hdata.
  all: destruct Hfails as [->|(response & -> & Hthrows)].
  all: eexists _, _, _, _.
  all: split;
    [eexists; split;
     [cbn [act]; unfold conductSearch; cbn; rewrite Hcancel; cbn;
      rewrite decide_True by exact Hterm; cbn;
      rewrite searchByKeywordWithPaging_in_range by exact START_PAGE_in_window;
      exec; reflexivity
     |by exists 0%nat]|].
  all: split; [eexists; split; [cbn; exec; reflexivity|by exists 0%nat]|].
  all: split; [reflexivity|].
  all: split;
    [eexists; split;
     [cbn [act]; erewrite awaited_last;
      [reflexivity|reflexivity|cbn; repeat step_map; reflexivity]
     |exists 8%nat; exec; rewrite ?Hthrows; exec; rewrite Hdata; exec;
      reflexivity]|].
  all: unfold isAllowedToLoadMore; cbn; repeat split.
  all: by rewrite andb_false_r.
Qed.

Lemma conductSearch_failure_witness :
  let w := set_ctrl (set_searchTerm "gecko") init in
  let r := error_response 403 (VStr "rate limit") in
  queue w = [] ∧
  formatted (searchTerm (ctrl w)) ≠ "" ∧
  fails_with (Rejected r) r ∧
  ∃ w1 w2 h w3,
    Step w UserSearches w1 ∧
    Step w1 (TimerFires (next_timer w)) w2 ∧
    Step w2 (ResponseArrives h (Rejected r)) w3 ∧
    error (ctrl w3) = VStr "rate limit" ∧
    currentPage (ctrl w3) = START_PAGE.
Proof.
  intros w r.
  assert (formatted (searchTerm (ctrl w)) ≠ "") as Hterm by (vm_compute; discriminate).
  assert (fails_with (Rejected r) r) as Hfails by (by left).
  split; [reflexivity|]. split; [exact Hterm|]. split; [exact Hfails|].
  destruct (conductSearch_failure w _ r eq_refl Hterm Hfails)
    as (w1 & w2 & h & w3 & H1 & H2 & _ & H3 & H4 & _ & H5 & _).
  exists w1, w2, h, w3. auto.
Defined.

(** ** SearchController: the last page *)

(** X17.  On the last page of the window loading more is still allowed, and
    the click is answered with the paging error: no request goes out, no
    timer is armed, the page number and the list are what they were,
    [error] is the message for the page after the last, and loading more
    is allowed again. *)
Theorem fetchMoreResults_on_last_page (w : World) :
  queue w = [] →
  currentPage (ctrl w) = PAGE_LIMIT →
  isAllowedToLoadMore w = true →
  ∃ w',
    Step w UserLoadsMore w' ∧
    requests w' = requests w ∧
    timers w' ⊆ timers w ∧
    currentPage (ctrl w') = PAGE_LIMIT ∧
    searchResults (ctrl w') = searchResults (ctrl w) ∧
    error (ctrl w')
    = VObj [("message",
             VStr (paging_message (formatted (searchTerm (ctrl w))) (PAGE_LIMIT + 1)))] ∧
    isAllowedToLoadMore w' = true.
Proof.
  intros Hq Hpage Hallowed.
  destruct (fetchMoreResults_outside_window w Hq) as (w' & Hstep & Hc & Htimers & Hrequests);
    [lia|].
  exists w'. split; [exact Hstep|]. split; [exact Hrequests|]. split; [exact Htimers|].
  unfold isAllowedToLoadMore in *.
  apply andb_prop in Hallowed as [Hallowed Hlist].
  apply andb_prop in Hallowed as [Hallowed _].
  apply andb_prop in Hallowed as [Hallowed _].
  rewrite Hc, Hpage.
  cbn [ctrl searchTerm currentPage searchResults canInitiateRequests canLoadMore error].
  rewrite Hallowed, Hlist. repeat split.
Qed.

Lemma fetchMoreResults_on_last_page_witness :
  queue last_page_shown = [] ∧
  currentPage (ctrl last_page_shown) = PAGE_LIMIT ∧
  isAllowedToLoadMore last_page_shown = true ∧
  ∃ w',
    Step last_page_shown UserLoadsMore w' ∧
    requests w' = requests last_page_shown ∧
    currentPage (ctrl w') = PAGE_LIMIT ∧
    isAllowedToLoadMore w' = true.
Proof.
  assert (queue last_page_shown = []) as Hq by (vm_compute; reflexivity).
  assert (currentPage (ctrl last_page_shown) = PAGE_LIMIT) as Hpage
    by (vm_compute; reflexivity).
  assert (isAllowedToLoadMore last_page_shown = true) as Hallowed
    by (vm_compute; reflexivity).
  split; [exact Hq|]. split; [exact Hpage|]. split; [exact Hallowed|].
  destruct (fetchMoreResults_on_last_page last_page_shown Hq Hpage Hallowed)
    as (w' & H1 & H2 & _ & H3 & _ & _ & H4).
  exists w'. auto.
Defined.

(** ** SearchController: answers that come late *)

(** X18.  Nothing detaches the callbacks of a fetch whose request is in
    flight.  When the user types another term and searches before the
    response has come, the response still runs the fetch's callbacks on the
    state of the new search: the records of the old term are put into the
    list that the new search has emptied, and the gate is opened although
    the new search's timer is still pending and its request has not gone
    out. *)
Theorem late_results_reach_new_search (w : World) (term' : string)
    (response : value) (raws : list (list (string * value))) :
  queue w = [] →
  START_PAGE ≤ currentPage (ctrl w) + 1 ≤ PAGE_LIMIT →
  formatted term' ≠ "" →
  carries response (map VObj raws) →
  ∃ w1 w2 h w3 w4 w5,
    Step w UserLoadsMore w1 ∧
    Step w1 (TimerFires (next_timer w)) w2 ∧
    requests w2
    = requests w ++ [(createGithubSearchURL (formatted (searchTerm (ctrl w)))
                                            (currentPage (ctrl w) + 1), h)] ∧
    Step w2 (UserTypes term') w3 ∧
    Step w3 UserSearches w4 ∧
    searchResults (ctrl w4) = [] ∧
    canInitiateRequests (ctrl w4) = false ∧
    Step w4 (ResponseArrives h (Fulfilled response)) w5 ∧
    searchTerm (ctrl w5) = term' ∧
    searchResults (ctrl w5) = map SearchResult raws ∧
    canInitiateRequests (ctrl w5) = true ∧
    requests w5 = requests w2 ∧
    ∃ d,
      timers w5 !! Pos.succ (next_timer w)
      = Some (factoryJob (searchGitHubRepos (formatted term') START_PAGE) d, TIME_DELAY).
Proof.
  intros Hq Hin Hterm Hcarries%createResultBeans_objects.
  destruct (cancelJobIfStillActive_eq w) as (tm & tk & Hcancel & _ & _).
  destruct w as [tm0 nt tk0 nk ps np q rs c]. cbn in Hq, Hcancel, Hin. subst q.
  destruct raws as [|raw raws].
  all: eexists _, _, _, _, _, _.
  all: split;
    [eexists; split;
     [cbn [act]; unfold fetchMoreResults; cbn; rewrite Hcancel; cbn;
      rewrite searchByKeywordWithPaging_in_range by exact Hin;
      exec; reflexivity
     |by exists 0%nat]|].
  all: split; [eexists; split; [cbn; exec; reflexivity|by exists 0%nat]|].
  all: split; [reflexivity|].
  all: split; [eexists; split; [reflexivity|by exists 0%nat]|].
  all: split;
    [eexists; split;
     [cbn [act]; unfold conductSearch; cbn; unfold cancelJobIfStillActive; cbn;
      rewrite (cancel_armed _ _ nt) by (cbn; repeat step_map; reflexivity); cbn;
      rewrite decide_True by exact Hterm; cbn;
      rewrite searchByKeywordWithPaging_in_range by exact START_PAGE_in_window;
      exec; reflexivity
     |by exists 0%nat]|].
  all: split; [reflexivity|].
  all: split; [reflexivity|].
  all: split;
    [eexists; split;
     [cbn [act]; erewrite awaited_last;
      [reflexivity|reflexivity|cbn; repeat step_map; reflexivity]
     |exists 7%nat; exec; rewrite Hcarries; exec; reflexivity]|].
  all: cbn; repeat (split; [reflexivity|]).
  all: eexists; apply lookup_insert_eq.
Qed.

Lemma late_results_reach_new_search_witness :
  queue first_page_shown = [] ∧
  START_PAGE ≤ currentPage (ctrl first_page_shown) + 1 ≤ PAGE_LIMIT ∧
  formatted "foo" ≠ "" ∧
  carries (ok_response [VObj gecko]) (map VObj [gecko]) ∧
  ∃ w1 w2 h w3 w4 w5,
    Step first_page_shown UserLoadsMore w1 ∧
    Step w1 (TimerFires (next_timer first_page_shown)) w2 ∧
    Step w2 (UserTypes "foo") w3 ∧
    Step w3 UserSearches w4 ∧
    searchResults (ctrl w4) = [] ∧
    Step w4 (ResponseArrives h (Fulfilled (ok_response [VObj gecko]))) w5 ∧
    searchTerm (ctrl w5) = "foo" ∧
    searchResults (ctrl w5) = [SearchResult gecko].
Proof.
  assert (queue first_page_shown = []) as Hq by (vm_compute; reflexivity).
  assert (START_PAGE ≤ currentPage (ctrl first_page_shown) + 1 ≤ PAGE_LIMIT) as Hin
    by (vm_compute; split; discriminate).
  assert (formatted "foo" ≠ "") as Hterm by (vm_compute; discriminate).
  assert (carries (ok_response [VObj gecko]) (map VObj [gecko])) as Hcarries
    by (eexists; split; reflexivity).
  split; [exact Hq|]. split; [exact Hin|]. split; [exact Hterm|].
  split; [exact Hcarries|].
  destruct (late_results_reach_new_search first_page_shown "foo" _ [gecko]
              Hq Hin Hterm Hcarries)
    as (w1 & w2 & h & w3 & w4 & w5 & H1 & H2 & _ & H3 & H4 & H5 & _ & H6 & H7 & H8 & _).
  exists w1, w2, h, w3, w4, w5. auto 10.
Defined.

(** X19.  The same with a request that fails: the failure handler of the
    fetch steps back the page number that the new search has reset, which
    takes it to [START_PAGE - 1], below the window, and it sets the error
    of the old term on the new search. *)
Theorem late_failure_lowers_page (w : World) (term' : string) (o : Outcome) (r : value) :
  queue w = [] →
  START_PAGE ≤ currentPage (ctrl w) + 1 ≤ PAGE_LIMIT →
  formatted term' ≠ "" →
  fails_with o r →
  ∃ w1 w2 h w3 w4 w5,
    Step w UserLoadsMore w1 ∧
    Step w1 (TimerFires (next_timer w)) w2 ∧
    requests w2
    = requests w ++ [(createGithubSearchURL (formatted (searchTerm (ctrl w)))
                                            (currentPage (ctrl w) + 1), h)] ∧
    Step w2 (UserTypes term') w3 ∧
    Step w3 UserSearches w4 ∧
    currentPage (ctrl w4) = START_PAGE ∧
    Step w4 (ResponseArrives h o) w5 ∧
    searchTerm (ctrl w5) = term' ∧
    currentPage (ctrl w5) = START_PAGE - 1 ∧
    error (ctrl w5) = payload r ∧
    canInitiateRequests (ctrl w5) = true ∧
    requests w5 = requests w2.
Proof.
  intros Hq Hin Hterm Hfails. unfold payload.
  destruct (cancelJobIfStillActive_eq w) as (tm & tk & Hcancel & _ & _).
  destruct w as [tm0 nt tk0 nk ps np q rs c]. cbn in Hq, Hcancel, Hin. subst q.
  destruct (get_prop r "data") as [data|e] eqn:Hdata.
  all: destruct Hfails as [->|(response & -> & Hthrows)].
  all: eexists _, _, _, _, _, _.
  all: split;
    [eexists; split;
     [cbn [act]; unfold fetchMoreResults; cbn; rewrite Hcancel; cbn;
      rewrite searchByKeywordWithPaging_in_range by exact Hin;
      exec; reflexivity
     |by exists 0%nat]|].
  all: split; [eexists; split; [cbn; exec; reflexivity|by exists 0%nat]|].
  all: split; [reflexivity|].
  all: split; [eexists; split; [reflexivity|by exists 0%nat]|].
  all: split;
    [eexists; split;
     [cbn [act]; unfold conductSearch; cbn; unfold cancelJobIfStillActive; cbn;
      rewrite (cancel_armed _ _ nt) by (cbn; repeat step_map; reflexivity); cbn;
      rewrite decide_True by exact Hterm; cbn;
      rewrite searchByKeywordWithPaging_in_range by exact START_PAGE_in_window;
      exec; reflexivity
     |by exists 0%nat]|].
  all: split; [reflexivity|].
  all: split;
    [eexists; split;
     [cbn [act]; erewrite awaited_last;
      [reflexivity|reflexivity|cbn; repeat step_map; reflexivity]
     |exists 8%nat; exec; rewrite ?Hthrows; exec; rewrite Hdata; exec;
      reflexivity]|].
  all: cbn; repeat split.
Qed.

Lemma late_failure_lowers_page_witness :
  let r := error_response 403 (VStr "rate limit") in
  queue first_page_shown = [] ∧
  START_PAGE ≤ currentPage (ctrl first_page_shown) + 1 ≤ PAGE_LIMIT ∧
  formatted "foo" ≠ "" ∧
  fails_with (Rejected r) r ∧
  ∃ w1 w2 h w3 w4 w5,
    Step first_page_shown UserLoadsMore w1 ∧
    Step w1 (TimerFires (next_timer first_page_shown)) w2 ∧
    Step w2 (UserTypes "foo") w3 ∧
    Step w3 UserSearches w4 ∧
    Step w4 (ResponseArrives h (Rejected r)) w5 ∧
    currentPage (ctrl w5) = 0 ∧
    error (ctrl w5) = VStr "rate limit".
Proof.
  intros r.
  assert (queue first_page_shown = []) as Hq by (vm_compute; reflexivity).
  assert (START_PAGE ≤ currentPage (ctrl first_page_shown) + 1 ≤ PAGE_LIMIT) as Hin
    by (vm_compute; split; discriminate).
  assert (formatted "foo" ≠ "") as Hterm by (vm_compute; discriminate).
  assert (fails_with (Rejected r) r) as Hfails by (by left).
  split; [exact Hq|]. split; [exact Hin|]. split; [exact Hterm|].
  split; [exact Hfails|].
  destruct (late_failure_lowers_page first_page_shown "foo" _ r Hq Hin Hterm Hfails)
    as (w1 & w2 & h & w3 & w4 & w5 & H1 & H2 & _ & H3 & H4 & _ & H5 & _ & H6 & H7 & _).
  exists w1, w2, h, w3, w4, w5. auto 10.
Defined.

(** ** SearchController: the gate after an abandoned search *)

(** X20.  A search closes the request gate, and only the callbacks of its
    job open it again.  When the user clears the field and searches again
    before the timer has fired, the timer is cancelled, no request goes
    out, the controller holds no job, and the gate is still closed. *)
Theorem abandoned_search_leaves_gate_closed (w : World) :
  queue w = [] →
  formatted (searchTerm (ctrl w)) ≠ "" →
  ∃ w1 w2 w3,
    Step w UserSearches w1 ∧
    canInitiateRequests (ctrl w1) = false ∧
    Step w1 (UserTypes "") w2 ∧
    Step w2 UserSearches w3 ∧
    canInitiateRequests (ctrl w3) = false ∧
    delayedJob (ctrl w3) = None ∧
    timers w3 ⊆ timers w ∧
    timers w3 !! next_timer w = None ∧
    requests w3 = requests w.
Proof.
  intros Hq Hterm.
  destruct (cancelJobIfStillActive_eq w) as (tm & tk & Hcancel & Hsub & _).
  destruct w as [tm0 nt tk0 nk ps np q rs c]. cbn in Hq, Hcancel, Hterm, Hsub. subst q.
  eexists _, _, _.
  split;
    [eexists; split;
     [cbn [act]; unfold conductSearch; cbn; rewrite Hcancel; cbn;
      rewrite decide_True by exact Hterm; cbn;
      rewrite searchByKeywordWithPaging_in_range by exact START_PAGE_in_window;
      exec; reflexivity
     |by exists 0%nat]|].
  split; [reflexivity|].
  split; [eexists; split; [reflexivity|by exists 0%nat]|].
  split;
    [eexists; split;
     [cbn [act]; unfold conductSearch; cbn; unfold cancelJobIfStillActive; cbn;
      rewrite (cancel_armed _ _ nt) by (cbn; repeat step_map; reflexivity); cbn;
      reflexivity
     |by exists 0%nat]|].
  cbn. split; [done|]. split; [done|]. split; [|split; [apply lookup_delete_eq|done]].
  rewrite delete_insert_eq. etrans; [apply delete_subseteq|exact Hsub].
Qed.

Lemma abandoned_search_leaves_gate_closed_witness :
  let w := set_ctrl (set_searchTerm "gecko") init in
  queue w = [] ∧
  formatted (searchTerm (ctrl w)) ≠ "" ∧
  ∃ w1 w2 w3,
    Step w UserSearches w1 ∧
    Step w1 (UserTypes "") w2 ∧
    Step w2 UserSearches w3 ∧
    canInitiateRequests (ctrl w3) = false ∧
    timers w3 ⊆ timers w.
Proof.
  intros w.
  assert (formatted (searchTerm (ctrl w)) ≠ "") as Hterm by (vm_compute; discriminate).
  split; [reflexivity|]. split; [exact Hterm|].
  destruct (abandoned_search_leaves_gate_closed w eq_refl Hterm)
    as (w1 & w2 & w3 & H1 & _ & H2 & H3 & H4 & _ & H5 & _).
  exists w1, w2, w3. auto.
Defined.

(** ** A fetch that succeeds, at an input *)

Lemma fetchMoreResults_success_witness :
  queue first_page_shown = [] ∧
  START_PAGE ≤ currentPage (ctrl first_page_shown) + 1 ≤ PAGE_LIMIT ∧
  carries (ok_response [VObj gecko]) (map VObj [gecko]) ∧
  ∃ w1 w2 h w3,
    Step first_page_shown UserLoadsMore w1 ∧
    Step w1 (TimerFires (next_timer first_page_shown)) w2 ∧
    Step w2 (ResponseArrives h (Fulfilled (ok_response [VObj gecko]))) w3 ∧
    searchResults (ctrl w3) = [SearchResult gecko; SearchResult gecko] ∧
    currentPage (ctrl w3) = 2.
Proof.
  assert (queue first_page_shown = []) as Hq by (vm_compute; reflexivity).
  assert (START_PAGE ≤ currentPage (ctrl first_page_shown) + 1 ≤ PAGE_LIMIT) as Hin
    by (vm_compute; split; discriminate).
  assert (carries (ok_response [VObj gecko]) (map VObj [gecko])) as Hcarries
    by (eexists; split; reflexivity).
  split; [exact Hq|]. split; [exact Hin|]. split; [exact Hcarries|].
  destruct (fetchMoreResults_success first_page_shown _ [gecko] Hq Hin Hcarries)
    as (w1 & w2 & h & w3 & H1 & H2 & _ & H3 & H4 & _ & H5 & _).
  exists w1, w2, h, w3. auto 10.
Defined.
